(** * Batch deletion of blog posts: the transaction of
      [src/components/write/services/batch-delete.ts]

    [batchDeleteBlogs] talks to four collaborators that live outside the
    file: the credential provider ([getAuthToken]), the notification sink
    ([toast]), the repository constants ([GITHUB_CONFIG]) and the GitHub
    client ([getRef], [listRepoFilesRecursive], [createTree],
    [createCommit], [updateRef]).  The function is embedded in a small
    monad that threads the state of the outside world, stops at the first
    rejected promise and records every call together with its answer. *)

From Stdlib Require Import String Ascii List Arith Lia Bool Permutation.
From Stdlib Require Import DecimalString.
From Stdlib Require DecimalNat DecimalFacts.
Import ListNotations.
Local Open Scope string_scope.
Local Open Scope list_scope.

(** ** Values exchanged with the collaborators *)

(** A JavaScript [Error]; only its message is observed. *)
Inductive error : Type :=
| Error (message : string).

(** What an awaited promise settles to. *)
Inductive result (A : Type) : Type :=
| Ok (a : A)
| Err (e : error).
Arguments Ok {A} a.
Arguments Err {A} e.

(** [TreeItem] of the GitHub client; [sha = null] asks for a deletion. *)
Record TreeItem : Type := mkTreeItem {
  path : string;
  mode : string;
  type : string;
  sha : option string
}.

(** The answers of [getRef], [createTree] and [createCommit]; the function
    reads only their [sha] field. *)
Record RefData : Type := mkRefData { ref_sha : string }.
Record TreeData : Type := mkTreeData { tree_sha : string }.
Record CommitData : Type := mkCommitData { commit_sha : string }.

(** [GITHUB_CONFIG] of [@/consts]. *)
Record GithubConfig : Type := mkGithubConfig {
  OWNER : string;
  REPO : string;
  BRANCH : string
}.

(** One entry of the log: a call that was issued, with its arguments and
    with what it settled to.  Toasts cannot fail. *)
Inductive event : Type :=
| GetAuthToken (r : result string)
| ToastInfo (msg : string)
| ToastSuccess (msg : string)
| GetRef (token owner repo ref : string) (r : result RefData)
| ListRepoFilesRecursive (token owner repo dir branch : string)
    (r : result (list string))
| CreateTree (token owner repo : string) (tree : list TreeItem)
    (base : string) (r : result TreeData)
| CreateCommit (token owner repo message tree : string)
    (parents : list string) (r : result CommitData)
| UpdateRef (token owner repo ref new_sha : string) (r : result unit).

(** The collaborators, as functions of the state [W] of the outside world.
    Nothing is assumed about them: each may fail, and each may change the
    world. *)
Record Client (W : Type) : Type := mkClient {
  call_getAuthToken : W -> result string * W;
  call_getRef : string -> string -> string -> string -> W -> result RefData * W;
  call_listRepoFilesRecursive :
    string -> string -> string -> string -> string ->
    W -> result (list string) * W;
  call_createTree :
    string -> string -> string -> list TreeItem -> string ->
    W -> result TreeData * W;
  call_createCommit :
    string -> string -> string -> string -> string -> list string ->
    W -> result CommitData * W;
  call_updateRef :
    string -> string -> string -> string -> string -> W -> result unit * W
}.
Arguments call_getAuthToken {W} c.
Arguments call_getRef {W} c.
Arguments call_listRepoFilesRecursive {W} c.
Arguments call_createTree {W} c.
Arguments call_createCommit {W} c.
Arguments call_updateRef {W} c.

(** ** The monad of an [async] function *)

Definition M (W A : Type) : Type := W -> result A * W * list event.

Definition ret {W A : Type} (a : A) : M W A :=
  fun w => (Ok a, w, []).

Definition throw {W A : Type} (e : error) : M W A :=
  fun w => (Err e, w, []).

Definition bind {W A B : Type} (m : M W A) (k : A -> M W B) : M W B :=
  fun w =>
    match m w with
    | (Ok a, w1, t1) =>
        match k a w1 with
        | (r, w2, t2) => (r, w2, t1 ++ t2)
        end
    | (Err e, w1, t1) => (Err e, w1, t1)
    end.

(** [await] of a collaborator: run it, log the call and its answer. *)
Definition await {W A : Type} (h : W -> result A * W)
    (log : result A -> event) : M W A :=
  fun w => match h w with (r, w1) => (r, w1, [log r]) end.

Definition emit {W : Type} (e : event) : M W unit :=
  fun w => (Ok tt, w, [e]).

Declare Scope async_scope.
Delimit Scope async_scope with async.
Notation "x <- m ;; k" := (bind m (fun x => k))
  (at level 61, m at next level, right associativity) : async_scope.
Notation "m ;; k" := (bind m (fun _ => k))
  (at level 61, right associativity) : async_scope.
Local Open Scope async_scope.

(** JavaScript renders a number inside a template literal in decimal. *)
Definition number_to_string (n : nat) : string :=
  NilZero.string_of_uint (Nat.to_uint n).

(** ** The function *)

Section BatchDelete.

Variable W : Type.
Variable GITHUB_CONFIG : GithubConfig.
Variable client : Client W.

Definition toast_info (msg : string) : M W unit := emit (ToastInfo msg).
Definition toast_success (msg : string) : M W unit := emit (ToastSuccess msg).

Definition getAuthToken : M W string :=
  await (call_getAuthToken client) GetAuthToken.

Definition getRef (token owner repo ref : string) : M W RefData :=
  await (call_getRef client token owner repo ref)
        (GetRef token owner repo ref).

Definition listRepoFilesRecursive (token owner repo dir branch : string)
    : M W (list string) :=
  await (call_listRepoFilesRecursive client token owner repo dir branch)
        (ListRepoFilesRecursive token owner repo dir branch).

Definition createTree (token owner repo : string) (tree : list TreeItem)
    (base : string) : M W TreeData :=
  await (call_createTree client token owner repo tree base)
        (CreateTree token owner repo tree base).

Definition createCommit (token owner repo message tree : string)
    (parents : list string) : M W CommitData :=
  await (call_createCommit client token owner repo message tree parents)
        (CreateCommit token owner repo message tree parents).

Definition updateRef (token owner repo ref new_sha : string) : M W unit :=
  await (call_updateRef client token owner repo ref new_sha)
        (UpdateRef token owner repo ref new_sha).

(** The object literal pushed three times by the loop (lines 23-28,
    31-36, 37-42): a blob entry whose [sha] is [null]. *)
Definition deletion (p : string) : TreeItem :=
  {| path := p; mode := "100644"; type := "blob"; sha := None |}.

(** The two content entries of a slug (lines 32 and 38) and its image
    directory (line 19). *)
Definition mdPath (slug : string) : string :=
  "src/content/blog/" ++ slug ++ ".md".
Definition mdxPath (slug : string) : string :=
  "src/content/blog/" ++ slug ++ ".mdx".
Definition imagesPath (slug : string) : string :=
  "public/images/" ++ slug.

(** Lines 17-43: the [for ... of] loop; [treeItems] is the array the
    loop pushes to. *)
Fixpoint forEachSlug (token : string) (slugs : list string)
    (treeItems : list TreeItem) : M W (list TreeItem) :=
  match slugs with
  | [] => ret treeItems
  | slug :: rest =>
      toast_info ("正在处理: " ++ slug ++ "...") ;;
      imageFiles <- listRepoFilesRecursive token (OWNER GITHUB_CONFIG)
                      (REPO GITHUB_CONFIG) (imagesPath slug)
                      (BRANCH GITHUB_CONFIG) ;;
      forEachSlug token rest
        (treeItems ++ map deletion imageFiles
                   ++ [deletion (mdPath slug); deletion (mdxPath slug)])
  end.

(** Line 48. *)
Definition message (slugs : list string) : string :=
  if (length slugs =? 1)%nat
  then "删除文章: " ++ nth 0 slugs "undefined"
  else "批量删除文章: " ++ number_to_string (length slugs) ++ " 篇".

(** Lines 6-56.  The argument is [None] when the caller passes [null] or
    [undefined], which the guard of line 7 also rejects. *)
Definition batchDeleteBlogs (slugs : option (list string)) : M W unit :=
  match slugs with
  | None | Some [] => throw (Error "需要 slugs")
  | Some slugs =>
      token <- getAuthToken ;;
      toast_info "正在获取分支信息..." ;;
      refData <- getRef token (OWNER GITHUB_CONFIG) (REPO GITHUB_CONFIG)
                   ("heads/" ++ BRANCH GITHUB_CONFIG) ;;
      let latestCommitSha := ref_sha refData in
      treeItems <- forEachSlug token slugs [] ;;
      toast_info "正在创建文件树..." ;;
      treeData <- createTree token (OWNER GITHUB_CONFIG)
                    (REPO GITHUB_CONFIG) treeItems latestCommitSha ;;
      let message := message slugs in
      toast_info "正在创建提交..." ;;
      commitData <- createCommit token (OWNER GITHUB_CONFIG)
                      (REPO GITHUB_CONFIG) message (tree_sha treeData)
                      [latestCommitSha] ;;
      toast_info "正在更新分支..." ;;
      updateRef token (OWNER GITHUB_CONFIG) (REPO GITHUB_CONFIG)
        ("heads/" ++ BRANCH GITHUB_CONFIG) (commit_sha commitData) ;;
      toast_success "批量删除成功！请等待页面部署后刷新"
  end.

End BatchDelete.

Arguments toast_info {W} msg.
Arguments toast_success {W} msg.
Arguments getAuthToken {W} client.
Arguments getRef {W} client token owner repo ref.
Arguments listRepoFilesRecursive {W} client token owner repo dir branch.
Arguments createTree {W} client token owner repo tree base.
Arguments createCommit {W} client token owner repo message tree parents.
Arguments updateRef {W} client token owner repo ref new_sha.
Arguments forEachSlug {W} GITHUB_CONFIG client token slugs treeItems.
Arguments batchDeleteBlogs {W} GITHUB_CONFIG client slugs.

(** ** Reading a log *)

Definition is_toast (ev : event) : bool :=
  match ev with
  | ToastInfo _ | ToastSuccess _ => true
  | _ => false
  end.

Definition is_success_toast (ev : event) : bool :=
  match ev with
  | ToastSuccess _ => true
  | _ => false
  end.

(** Every call that leaves the page: the credential provider and the
    five operations of the GitHub client. *)
Definition is_network (ev : event) : bool := negb (is_toast ev).

(** The operations of the GitHub client. *)
Definition is_storage (ev : event) : bool :=
  match ev with
  | GetRef _ _ _ _ _ | ListRepoFilesRecursive _ _ _ _ _ _
  | CreateTree _ _ _ _ _ _ | CreateCommit _ _ _ _ _ _ _
  | UpdateRef _ _ _ _ _ _ => true
  | _ => false
  end.

Definition is_getRef (ev : event) : bool :=
  match ev with
  | GetRef _ _ _ _ _ => true
  | _ => false
  end.

Definition is_listing (ev : event) : bool :=
  match ev with
  | ListRepoFilesRecursive _ _ _ _ _ _ => true
  | _ => false
  end.

Definition is_createCommit (ev : event) : bool :=
  match ev with
  | CreateCommit _ _ _ _ _ _ _ => true
  | _ => false
  end.

Definition is_updateRef (ev : event) : bool :=
  match ev with
  | UpdateRef _ _ _ _ _ _ => true
  | _ => false
  end.

(** A tree or a commit creation that the storage rejected. *)
Definition construction_rejected (ev : event) : bool :=
  match ev with
  | CreateTree _ _ _ _ _ (Err _) | CreateCommit _ _ _ _ _ _ (Err _) => true
  | _ => false
  end.

Definition toasts (t : list event) : list event := filter is_toast t.

(** The mutation set of a run: what the first [createTree] call was
    given. *)
Fixpoint mutationSetOf (t : list event) : option (list TreeItem) :=
  match t with
  | [] => None
  | CreateTree _ _ _ tree _ _ :: _ => Some tree
  | _ :: t' => mutationSetOf t'
  end.

(** What follows the first branch-head read... *)
Fixpoint after_getRef (t : list event) : list event :=
  match t with
  | [] => []
  | GetRef _ _ _ _ _ :: t' => t'
  | _ :: t' => after_getRef t'
  end.

(** ... and what precedes the first tree creation. *)
Fixpoint before_createTree (t : list event) : list event :=
  match t with
  | [] => []
  | CreateTree _ _ _ _ _ _ :: _ => []
  | ev :: t' => ev :: before_createTree t'
  end.

(** The network operations issued after the branch head was read and
    before the tree is created. *)
Definition between_read_and_tree (t : list event) : list event :=
  filter is_network (before_createTree (after_getRef t)).

(** ** The shape of a run *)

Section Shape.

Variable GITHUB_CONFIG : GithubConfig.

Definition headsRef : string := "heads/" ++ BRANCH GITHUB_CONFIG.

Definition opening (token : string) (r : result RefData) : list event :=
  [GetAuthToken (Ok token); ToastInfo "正在获取分支信息...";
   GetRef token (OWNER GITHUB_CONFIG) (REPO GITHUB_CONFIG) headsRef r].

Definition slugToast (slug : string) : event :=
  ToastInfo ("正在处理: " ++ slug ++ "...").

Definition listing (token slug : string) (r : result (list string)) : event :=
  ListRepoFilesRecursive token (OWNER GITHUB_CONFIG) (REPO GITHUB_CONFIG)
    (imagesPath slug) (BRANCH GITHUB_CONFIG) r.

(** One iteration that went through: [sf] pairs the slug with the files
    the listing answered. *)
Definition slugEvents (token : string) (sf : string * list string)
    : list event :=
  [slugToast (fst sf); listing token (fst sf) (Ok (snd sf))].

Definition slugPaths (sf : string * list string) : list string :=
  snd sf ++ [mdPath (fst sf); mdxPath (fst sf)].

Definition resolution (token : string)
    (resolved : list (string * list string)) : list event :=
  flat_map (slugEvents token) resolved.

Definition mutations (resolved : list (string * list string))
    : list TreeItem :=
  map deletion (flat_map slugPaths resolved).

Definition treeStage (token : string)
    (resolved : list (string * list string)) (base : string)
    (r : result TreeData) : list event :=
  [ToastInfo "正在创建文件树...";
   CreateTree token (OWNER GITHUB_CONFIG) (REPO GITHUB_CONFIG)
     (mutations resolved) base r].

Definition commitStage (token : string) (slugs : list string)
    (tree base : string) (r : result CommitData) : list event :=
  [ToastInfo "正在创建提交...";
   CreateCommit token (OWNER GITHUB_CONFIG) (REPO GITHUB_CONFIG)
     (message slugs) tree [base] r].

Definition updateStage (token new_sha : string) (r : result unit)
    : list event :=
  [ToastInfo "正在更新分支...";
   UpdateRef token (OWNER GITHUB_CONFIG) (REPO GITHUB_CONFIG) headsRef
     new_sha r].

Definition successToast : event :=
  ToastSuccess "批量删除成功！请等待页面部署后刷新".

(** The seven ways a call with a non-empty list can go: one per promise
    that may reject, and the run that goes through. *)
Inductive Run (slugs : list string) : result unit -> list event -> Prop :=
| Run_auth e :
    Run slugs (Err e) [GetAuthToken (Err e)]
| Run_ref token e :
    Run slugs (Err e) (opening token (Err e))
| Run_list token rd done files slug rest e :
    slugs = done ++ slug :: rest ->
    length files = length done ->
    Run slugs (Err e)
      (opening token (Ok rd) ++ resolution token (combine done files)
         ++ [slugToast slug; listing token slug (Err e)])
| Run_tree token rd files e :
    length files = length slugs ->
    Run slugs (Err e)
      (opening token (Ok rd) ++ resolution token (combine slugs files)
         ++ treeStage token (combine slugs files) (ref_sha rd) (Err e))
| Run_commit token rd files td e :
    length files = length slugs ->
    Run slugs (Err e)
      (opening token (Ok rd) ++ resolution token (combine slugs files)
         ++ treeStage token (combine slugs files) (ref_sha rd) (Ok td)
         ++ commitStage token slugs (tree_sha td) (ref_sha rd) (Err e))
| Run_update token rd files td cd e :
    length files = length slugs ->
    Run slugs (Err e)
      (opening token (Ok rd) ++ resolution token (combine slugs files)
         ++ treeStage token (combine slugs files) (ref_sha rd) (Ok td)
         ++ commitStage token slugs (tree_sha td) (ref_sha rd) (Ok cd)
         ++ updateStage token (commit_sha cd) (Err e))
| Run_done token rd files td cd :
    length files = length slugs ->
    Run slugs (Ok tt)
      (opening token (Ok rd) ++ resolution token (combine slugs files)
         ++ treeStage token (combine slugs files) (ref_sha rd) (Ok td)
         ++ commitStage token slugs (tree_sha td) (ref_sha rd) (Ok cd)
         ++ updateStage token (commit_sha cd) (Ok tt)
         ++ [successToast]).

(** The progress notifications of a complete run, before the final one. *)
Definition progress (slugs : list string) : list event :=
  [ToastInfo "正在获取分支信息..."] ++ map slugToast slugs
    ++ [ToastInfo "正在创建文件树..."; ToastInfo "正在创建提交...";
        ToastInfo "正在更新分支..."].

End Shape.

(** Only [updateRef] moves what [pointer] observes of the world: the
    credential provider, the two reads and the two object creations leave
    it alone, whether they succeed or not. *)
Definition only_updateRef_moves {W X : Type} (client : Client W)
    (pointer : W -> X) : Prop :=
  (forall w, pointer (snd (call_getAuthToken client w)) = pointer w) /\
  (forall a b c d w,
     pointer (snd (call_getRef client a b c d w)) = pointer w) /\
  (forall a b c d e w,
     pointer (snd (call_listRepoFilesRecursive client a b c d e w))
     = pointer w) /\
  (forall a b c d e w,
     pointer (snd (call_createTree client a b c d e w)) = pointer w) /\
  (forall a b c d e f w,
     pointer (snd (call_createCommit client a b c d e f w)) = pointer w).

(** ** A repository to run against

    The GitHub client ([@/lib/github-client]) and the credential provider
    ([@/lib/auth]) are not part of the sources at hand.  [Store] is a small
    repository in the terms of the specification (sections 3, 4 and 6): a
    table of branch pointers, immutable trees and immutable commits. *)

Module Store.

Record Commit : Type := mkCommit {
  tree : string;
  parents : list string;
  note : string
}.

Record t : Type := mkStore {
  credential : option string;
  writable : bool;
  refs : list (string * string);
  trees : list (string * list string);
  commits : list (string * Commit)
}.

Fixpoint lookup {A : Type} (k : string) (l : list (string * A))
    : option A :=
  match l with
  | [] => None
  | (k', v) :: l' => if (k' =? k)%string then Some v else lookup k l'
  end.

Fixpoint assign {A : Type} (k : string) (v : A) (l : list (string * A))
    : list (string * A) :=
  match l with
  | [] => [(k, v)]
  | (k', v') :: l' =>
      if (k' =? k)%string then (k, v) :: l' else (k', v') :: assign k v l'
  end.

Definition head (s : t) (branchName : string) : option string :=
  lookup branchName (refs s).

Definition with_refs (s : t) (r : list (string * string)) : t :=
  mkStore (credential s) (writable s) r (trees s) (commits s).

Inductive outcome : Type :=
| Success
| Conflict.

(** Modelled from the spec: the Reference Advancer of section 4.4,
    [updateBranchHead(branch, expectedOld, new) -> success|conflict] of
    section 6; its implementation ([updateRef] of [@/lib/github-client]
    and the server behind it) is missing.  "The branch pointer moves to
    newCommit only if it currently equals expectedOldCommit.  On mismatch
    [...] returns a conflict outcome". *)
Definition advance (branchName expectedOldCommit newCommit : string)
    (s : t) : outcome * t :=
  match head s branchName with
  | Some actualCurrent =>
      if (actualCurrent =? expectedOldCommit)%string
      then (Success, with_refs s (assign branchName newCommit (refs s)))
      else (Conflict, s)
  | None => (Conflict, s)
  end.

(** [d] is [c] or one of its ancestors. *)
Inductive reachable (s : t) : string -> string -> Prop :=
| reach_self c : reachable s c c
| reach_parent c cm p d :
    lookup c (commits s) = Some cm ->
    In p (parents cm) ->
    reachable s p d ->
    reachable s c d.

Definition reachable_from_branch (s : t) (branchName c : string) : Prop :=
  exists h, head s branchName = Some h /\ reachable s h c.

(** The paths of the tree a branch points to. *)
Definition pathsAt (s : t) (commit : string) : option (list string) :=
  match lookup commit (commits s) with
  | Some cm => lookup (tree cm) (trees s)
  | None => None
  end.

(** Modelled from the spec: the credential provider ([getAuthToken] of
    [@/lib/auth], missing); section 7, AuthError: "no/invalid credential
    available". *)
Definition getAuthToken (s : t) : result string * t :=
  match credential s with
  | Some token => (Ok token, s)
  | None => (Err (Error "no credential"), s)
  end.

(** Modelled from the spec: [readBranchHead(branch) -> commitHash] of
    section 6 ([getRef] of [@/lib/github-client], missing). *)
Definition getRef (token owner repo ref : string) (s : t)
    : result RefData * t :=
  match head s ref with
  | Some c => (Ok (mkRefData c), s)
  | None => (Err (Error "ref not found"), s)
  end.

(** Modelled from the spec: [listPaths(rootPrefix, atCommit)] of section 6
    ([listRepoFilesRecursive] of [@/lib/github-client], missing): every
    path below the directory, "tolerating zero matches (directory absence
    is not an error, yields empty set)". *)
Definition listRepoFilesRecursive (token owner repo dir branch : string)
    (s : t) : result (list string) * t :=
  match head s ("heads/" ++ branch) with
  | Some c =>
      match pathsAt s c with
      | Some ps => (Ok (filter (String.prefix (dir ++ "/")) ps), s)
      | None => (Err (Error "commit not found"), s)
      end
  | None => (Err (Error "branch not found"), s)
  end.

Definition deletes (items : list TreeItem) (p : string) : bool :=
  existsb (fun it => match sha it with
                     | None => (path it =? p)%string
                     | Some _ => false
                     end) items.

(** Modelled from the spec: [createTree(deletions, baseCommit) ->
    treeHash] of section 6 ([createTree] of [@/lib/github-client],
    missing): "applying every deletion in mutations against the tree
    reachable from base.commit.  Deleting a path that does not exist in
    the base tree MUST be a no-op"; storage may reject (section 4.3:
    "permission"). *)
Definition createTree (token owner repo : string) (items : list TreeItem)
    (base : string) (s : t) : result TreeData * t :=
  if writable s then
    match pathsAt s base with
    | Some ps =>
        let h := ("tree-" ++ number_to_string (length (trees s)))%string in
        (Ok (mkTreeData h),
         mkStore (credential s) (writable s) (refs s)
           (trees s ++ [(h, filter (fun p => negb (deletes items p)) ps)])
           (commits s))
    | None => (Err (Error "base not found"), s)
    end
  else (Err (Error "permission denied"), s).

(** Modelled from the spec: [createCommit(treeHash, parents, message) ->
    commitHash] of section 6 ([createCommit] of [@/lib/github-client],
    missing): allocates a new immutable object, touches no reference. *)
Definition createCommit (token owner repo message tree : string)
    (parents : list string) (s : t) : result CommitData * t :=
  if writable s then
    let h := ("commit-" ++ number_to_string (length (commits s)))%string in
    (Ok (mkCommitData h),
     mkStore (credential s) (writable s) (refs s) (trees s)
       (commits s ++ [(h, mkCommit tree parents message)]))
  else (Err (Error "permission denied"), s).

(** Modelled from the spec: the call the function issues, [updateRef(token,
    owner, repo, ref, sha)] of [@/lib/github-client] (missing), hands over
    the new commit only; here the storage takes the expected old commit to
    be the parent of the new one and advances as section 4.4 says. *)
Definition updateRef (token owner repo ref new_sha : string) (s : t)
    : result unit * t :=
  match lookup new_sha (commits s) with
  | Some cm =>
      match parents cm with
      | [expectedOld] =>
          match advance ref expectedOld new_sha s with
          | (Success, s') => (Ok tt, s')
          | (Conflict, s') => (Err (Error "conflict"), s')
          end
      | _ => (Err (Error "not a fast-forward"), s)
      end
  | None => (Err (Error "object not found"), s)
  end.

Definition client : Client t :=
  mkClient t getAuthToken getRef listRepoFilesRecursive createTree
    createCommit updateRef.

Definition config : GithubConfig := mkGithubConfig "owner" "blog" "main".

(** A repository with two posts; the first has an image and both content
    extensions, the second only the [.md] entry (scenarios 1 and 2 of
    section 8). *)
Definition initial : t :=
  mkStore (Some "token") true
    [("heads/main", "commit-0")]
    [("tree-0",
      ["README.md";
       "public/images/post-a/img.png";
       "public/images/notes/2024/chart.png";
       "src/content/blog/post-a.md";
       "src/content/blog/post-a.mdx";
       "src/content/blog/post-b.md";
       "src/content/blog/notes.md";
       "src/content/blog/notes/2024.md"])]
    [("commit-0", mkCommit "tree-0" [] "init")].

Definition signed_out : t :=
  mkStore None true (refs initial) (trees initial) (commits initial).

Definition read_only : t :=
  mkStore (Some "token") false (refs initial) (trees initial)
    (commits initial).

(** Two transactions started from [commit-0] (scenario 3 of section 8):
    the first advanced the branch to [commit-1], the commit of the second,
    [commit-2], is in storage and waits for its reference update. *)
Definition raced : t :=
  mkStore (Some "token") true
    [("heads/main", "commit-1")]
    (trees initial)
    (commits initial
       ++ [("commit-1", mkCommit "tree-0" ["commit-0"] "first");
           ("commit-2", mkCommit "tree-0" ["commit-0"] "second")]).

(** A call of the function against this repository. *)
Definition transaction (slugs : list string) (s : t)
    : result unit * t * list event :=
  batchDeleteBlogs config client (Some slugs) s.

End Store.

(** ** Reading a log: notifications and their stages *)

(** The error a call was rejected with. *)
Definition rejection (ev : event) : option error :=
  match ev with
  | GetAuthToken (Err e) | GetRef _ _ _ _ (Err e)
  | ListRepoFilesRecursive _ _ _ _ _ (Err e)
  | CreateTree _ _ _ _ _ (Err e) | CreateCommit _ _ _ _ _ _ (Err e)
  | UpdateRef _ _ _ _ _ (Err e) => Some e
  | _ => None
  end.

(** [msg] is the progress notification of the stage [call] belongs to:
    the text of lines 11, 18, 45, 49 and 52; for a listing, the text
    names the slug whose image directory is listed. *)
Definition announces (msg : string) (call : event) : Prop :=
  match call with
  | GetRef _ _ _ _ _ => msg = "正在获取分支信息..."
  | ListRepoFilesRecursive _ _ _ dir _ _ =>
      exists slug,
        dir = imagesPath slug /\ msg = ("正在处理: " ++ slug ++ "...")%string
  | CreateTree _ _ _ _ _ _ => msg = "正在创建文件树..."
  | CreateCommit _ _ _ _ _ _ _ => msg = "正在创建提交..."
  | UpdateRef _ _ _ _ _ _ => msg = "正在更新分支..."
  | _ => False
  end.

(** A log in which notifications and calls alternate: every progress
    notification is followed at once by the call of its stage, every call
    is preceded at once by the notification of its stage, and the only
    other entry is a success notification at the very end. *)
Fixpoint announced (t : list event) : Prop :=
  match t with
  | [] => True
  | ToastInfo msg :: call :: t' => announces msg call /\ announced t'
  | [ToastSuccess _] => True
  | _ => False
  end.

(** ** Reading a log: targets and kinds of calls *)

Definition is_getAuthToken (ev : event) : bool :=
  match ev with
  | GetAuthToken _ => true
  | _ => false
  end.

Definition is_createTree (ev : event) : bool :=
  match ev with
  | CreateTree _ _ _ _ _ _ => true
  | _ => false
  end.

(** The calls that write to the repository. *)
Definition is_write (ev : event) : bool :=
  match ev with
  | CreateTree _ _ _ _ _ _ | CreateCommit _ _ _ _ _ _ _
  | UpdateRef _ _ _ _ _ _ => true
  | _ => false
  end.

(** The token, the owner and the repository a call to the GitHub client
    was given. *)
Definition target_of (ev : event) : option (string * string * string) :=
  match ev with
  | GetRef token owner repo _ _
  | ListRepoFilesRecursive token owner repo _ _ _
  | CreateTree token owner repo _ _ _
  | CreateCommit token owner repo _ _ _ _
  | UpdateRef token owner repo _ _ _ => Some (token, owner, repo)
  | _ => None
  end.

(** * The archive page ([ArchiveList])

    The component keeps three pieces of state ([editMode],
    [selectedSlugs], [deleting]), reads [isAuth] from the authentication
    store and owns the hidden file input behind [keyInputRef].  Its
    handlers are embedded as functions of the render they belong to. *)

Module Archive.

(** ** [Set] and [Map] of JavaScript

    Both iterate in insertion order, so they are lists: a set holds each
    member once, a map each key once. *)

Definition Set_has (x : string) (s : list string) : bool :=
  existsb (String.eqb x) s.

(** [add] appends a member that is not there yet. *)
Definition Set_add (x : string) (s : list string) : list string :=
  if Set_has x s then s else s ++ [x].

Definition Set_delete (x : string) (s : list string) : list string :=
  filter (fun y => negb (String.eqb x y)) s.

Definition Array_from (s : list string) : list string := s.

Fixpoint Map_get {V : Type} (k : string) (m : list (string * V))
    : option V :=
  match m with
  | [] => None
  | (k', v) :: m' => if (k' =? k)%string then Some v else Map_get k m'
  end.

Definition Map_has {V : Type} (k : string) (m : list (string * V)) : bool :=
  match Map_get k m with
  | Some _ => true
  | None => false
  end.

(** [set] keeps the place of a key that is there and appends a new one. *)
Fixpoint Map_set {V : Type} (k : string) (v : V) (m : list (string * V))
    : list (string * V) :=
  match m with
  | [] => [(k, v)]
  | (k', v') :: m' =>
      if (k' =? k)%string then (k, v) :: m' else (k', v') :: Map_set k v m'
  end.

(** ** Grouping the posts by year and month (lines 39-59) *)

Section Grouping.

(** [Date | string] of [pubDate], and [dayjs(d).format(template)]; dayjs
    is a library outside the repository. *)
Variable Date : Type.
Variable format : Date -> string -> string.

Record PostData : Type := mkPostData {
  title : string;
  pubDate : Date;
  description : option string
}.

Record Post : Type := mkPost {
  slug : string;
  data : PostData
}.

Definition yearOf (post : Post) : string :=
  format (pubDate (data post)) "YYYY".

Definition monthOf (post : Post) : string :=
  format (pubDate (data post)) "M".

(** The body of the [forEach] (lines 42-56).  [yearGroup] and the array
    of the month are the objects stored in the maps, so the [push] of line
    55 shows in [groups]: the entry is rewritten in its place. *)
Definition addPost (groups : list (string * list (string * list Post)))
    (post : Post) : list (string * list (string * list Post)) :=
  let year := yearOf post in
  let month := monthOf post in
  let groups :=
    if negb (Map_has year groups) then Map_set year [] groups else groups in
  match Map_get year groups with
  | Some yearGroup =>
      let yearGroup :=
        if negb (Map_has month yearGroup)
        then Map_set month [] yearGroup
        else yearGroup in
      match Map_get month yearGroup with
      | Some monthPosts =>
          Map_set year (Map_set month (monthPosts ++ [post]) yearGroup)
            groups
      | None => groups
      end
  | None => groups
  end.

Definition groupedPosts (posts : list Post)
    : list (string * list (string * list Post)) :=
  fold_left addPost posts [].

(** What the page shows under a year and a month: [monthPosts]. *)
Definition monthPostsOf (year month : string)
    (groups : list (string * list (string * list Post))) : list Post :=
  match Map_get year groups with
  | Some yearGroup =>
      match Map_get month yearGroup with
      | Some monthPosts => monthPosts
      | None => []
      end
  | None => []
  end.

(** The sum of the [month-count] badges. *)
Definition shownPosts (groups : list (string * list (string * list Post)))
    : nat :=
  list_sum
    (map (fun yg => list_sum (map (fun mp => length (snd mp)) (snd yg)))
       groups).

End Grouping.

Arguments title {Date} p.
Arguments pubDate {Date} p.
Arguments description {Date} p.
Arguments slug {Date} p.
Arguments data {Date} p.
Arguments yearOf {Date} format post.
Arguments monthOf {Date} format post.
Arguments addPost {Date} format groups post.
Arguments groupedPosts {Date} format posts.
Arguments monthPostsOf {Date} year month groups.
Arguments shownPosts {Date} groups.

(** ** The state of the component *)

Record View : Type := mkView {
  isAuth : bool;
  editMode : bool;
  selectedSlugs : list string;
  deleting : bool;
  keyInputMounted : bool
}.

Definition with_editMode (b : bool) (v : View) : View :=
  mkView (isAuth v) b (selectedSlugs v) (deleting v) (keyInputMounted v).

Definition with_selectedSlugs (s : list string) (v : View) : View :=
  mkView (isAuth v) (editMode v) s (deleting v) (keyInputMounted v).

Definition with_deleting (b : bool) (v : View) : View :=
  mkView (isAuth v) (editMode v) (selectedSlugs v) b (keyInputMounted v).

(** The first render: [useState(false)], [useState(new Set())],
    [useState(false)]. *)
Definition initialView (auth mounted : bool) : View :=
  mkView auth false [] false mounted.

(** Lines 63-66. *)
Definition toggleEditMode (v : View) : View :=
  with_selectedSlugs [] (with_editMode (negb (editMode v)) v).

(** Lines 68-76. *)
Definition toggleSelect (slug : string) (v : View) : View :=
  let newSelected := selectedSlugs v in
  let newSelected :=
    if Set_has slug newSelected
    then Set_delete slug newSelected
    else Set_add slug newSelected in
  with_selectedSlugs newSelected v.

(** The [onClick] of a card (lines 223-228): it selects only in edit
    mode. *)
Definition onCardClick (slug : string) (v : View) : View :=
  if editMode v then toggleSelect slug v else v.

(** What the user can do to the selection between two deletions: press
    one of the two buttons that call [toggleEditMode], click a card, or
    tick a checkbox, which is rendered in edit mode only (lines
    212-219). *)
Inductive Selecting : View -> Prop :=
| Selecting_initial auth mounted : Selecting (initialView auth mounted)
| Selecting_toggleEditMode v : Selecting v -> Selecting (toggleEditMode v)
| Selecting_card slug v : Selecting v -> Selecting (onCardClick slug v)
| Selecting_checkbox slug v :
    Selecting v -> editMode v = true -> Selecting (toggleSelect slug v).

(** ** The handlers that await *)

(** What a handler leaves in the log besides the calls of
    [batchDeleteBlogs]. *)
Inductive ui_event (File : Type) : Type :=
| Call (ev : event)
| ToastError (msg : string)
| ConsoleError (e : error)
| Confirm (msg : string) (answer : bool)
| KeyInputClick
| ReadFileAsText (file : File) (r : result string)
| SetPrivateKey (pem : string) (r : result unit)
| SetDeleting (b : bool)
| SetEditMode (b : bool)
| SetSelectedSlugs (s : list string).
Arguments Call {File} ev.
Arguments ToastError {File} msg.
Arguments ConsoleError {File} e.
Arguments Confirm {File} msg answer.
Arguments KeyInputClick {File}.
Arguments ReadFileAsText {File} file r.
Arguments SetPrivateKey {File} pem r.
Arguments SetDeleting {File} b.
Arguments SetEditMode {File} b.
Arguments SetSelectedSlugs {File} s.

(** [window.confirm], [readFileAsText] of [@/lib/file-utils] and
    [setPrivateKey] of the authentication store: none is in the sources at
    hand; the last two may throw. *)
Record Browser (W File : Type) : Type := mkBrowser {
  call_confirm : string -> W -> bool * W;
  call_readFileAsText : File -> W -> result string * W;
  call_setPrivateKey : string -> W -> result unit * W
}.
Arguments call_confirm {W File} b.
Arguments call_readFileAsText {W File} b.
Arguments call_setPrivateKey {W File} b.

(** A handler runs on the pending state of the component and on the
    world. *)
Definition U (W File A : Type) : Type :=
  View -> W -> result A * View * W * list (ui_event File).

Definition uret {W File A : Type} (a : A) : U W File A :=
  fun v w => (Ok a, v, w, []).

Definition ubind {W File A B : Type} (m : U W File A)
    (k : A -> U W File B) : U W File B :=
  fun v w =>
    match m v w with
    | (Ok a, v1, w1, t1) =>
        match k a v1 w1 with
        | (r, v2, w2, t2) => (r, v2, w2, t1 ++ t2)
        end
    | (Err e, v1, w1, t1) => (Err e, v1, w1, t1)
    end.

(** [try { body } catch (error) { handler error }] *)
Definition try_catch {W File A : Type} (body : U W File A)
    (handler : error -> U W File A) : U W File A :=
  fun v w =>
    match body v w with
    | (Ok a, v1, w1, t1) => (Ok a, v1, w1, t1)
    | (Err e, v1, w1, t1) =>
        match handler e v1 w1 with
        | (r, v2, w2, t2) => (r, v2, w2, t1 ++ t2)
        end
    end.

(** [try { body } finally { final }]: [final] runs however [body] ends,
    and an error of [final] replaces the outcome of [body]. *)
Definition try_finally {W File A : Type} (body : U W File A)
    (final : U W File unit) : U W File A :=
  fun v w =>
    match body v w with
    | (r, v1, w1, t1) =>
        match final v1 w1 with
        | (Ok _, v2, w2, t2) => (r, v2, w2, t1 ++ t2)
        | (Err e, v2, w2, t2) => (Err e, v2, w2, t1 ++ t2)
        end
    end.

(** A call of the service: its log becomes part of the handler's. *)
Definition service {W File A : Type} (m : M W A) : U W File A :=
  fun v w =>
    match m w with
    | (r, w1, t) => (r, v, w1, map Call t)
    end.

Definition uemit {W File : Type} (e : ui_event File) : U W File unit :=
  fun v w => (Ok tt, v, w, [e]).

Definition write {W File : Type} (f : View -> View) (e : ui_event File)
    : U W File unit :=
  fun v w => (Ok tt, f v, w, [e]).

Declare Scope ui_scope.
Delimit Scope ui_scope with ui.
Notation "x <- m ;; k" := (ubind m (fun x => k))
  (at level 61, m at next level, right associativity) : ui_scope.
Notation "m ;; k" := (ubind m (fun _ => k))
  (at level 61, right associativity) : ui_scope.

(** [error.message] *)
Definition error_message (e : error) : string :=
  match e with
  | Error m => m
  end.

(** [a || b] on strings: the empty string is falsy. *)
Definition or_else (a b : string) : string :=
  match a with
  | EmptyString => b
  | _ => a
  end.

Section Handlers.

Variable W : Type.
Variable File : Type.
Variable GITHUB_CONFIG : GithubConfig.
Variable client : Client W.
Variable browser : Browser W File.

Local Open Scope ui_scope.

Definition setDeleting (b : bool) : U W File unit :=
  write (with_deleting b) (SetDeleting b).
Definition setEditMode (b : bool) : U W File unit :=
  write (with_editMode b) (SetEditMode b).
Definition setSelectedSlugs (s : list string) : U W File unit :=
  write (with_selectedSlugs s) (SetSelectedSlugs s).

Definition console_error (e : error) : U W File unit :=
  uemit (ConsoleError e).
Definition toast_error (msg : string) : U W File unit :=
  uemit (ToastError msg).

Definition confirm (msg : string) : U W File bool :=
  fun v w =>
    match call_confirm browser msg w with
    | (answer, w1) => (Ok answer, v, w1, [Confirm msg answer])
    end.

Definition readFileAsText (file : File) : U W File string :=
  fun v w =>
    match call_readFileAsText browser file w with
    | (r, w1) => (r, v, w1, [ReadFileAsText file r])
    end.

Definition setPrivateKey (pem : string) : U W File unit :=
  fun v w =>
    match call_setPrivateKey browser pem w with
    | (r, w1) => (r, v, w1, [SetPrivateKey pem r])
    end.

(** [keyInputRef.current?.click()] *)
Definition keyInput_click (render : View) : U W File unit :=
  if keyInputMounted render then uemit KeyInputClick else uret tt.

(** Lines 78-91.  [render] is the render the handler was created in: the
    values it reads ([selectedSlugs]) are those of that render. *)
Definition executeDelete (render : View) : U W File unit :=
  try_finally
    (try_catch
       (setDeleting true ;;
        service (batchDeleteBlogs GITHUB_CONFIG client
                   (Some (Array_from (selectedSlugs render)))) ;;
        setEditMode false ;;
        setSelectedSlugs [])
       (fun error =>
          console_error error ;;
          toast_error (or_else (error_message error) "删除失败")))
    (setDeleting false).

(** Lines 93-107. *)
Definition handleBatchDelete (render : View) : U W File unit :=
  if (length (selectedSlugs render) =? 0)%nat then uret tt
  else
    confirmed <-
      confirm ("确定要删除选中的 "
                 ++ number_to_string (length (selectedSlugs render))
                 ++ " 篇文章吗？此操作不可恢复。") ;;
    if negb confirmed then uret tt
    else if negb (isAuth render) then
      service (toast_info "请导入私钥以继续删除操作") ;;
      keyInput_click render
    else executeDelete render.

(** Lines 109-119. *)
Definition handlePrivateKeySelection (render : View) (file : File)
    : U W File unit :=
  try_catch
    (pem <- readFileAsText file ;;
     setPrivateKey pem ;;
     service (toast_success "密钥导入成功，正在继续删除...") ;;
     executeDelete render)
    (fun error =>
       console_error error ;;
       toast_error "读取密钥失败").

End Handlers.

Arguments executeDelete {W File} GITHUB_CONFIG client render.
Arguments handleBatchDelete {W File} GITHUB_CONFIG client browser render.
Arguments handlePrivateKeySelection {W File} GITHUB_CONFIG client browser
  render file.

(** ** Reading the log of a handler *)

Definition is_call {File : Type} (e : ui_event File) : bool :=
  match e with
  | Call _ => true
  | _ => false
  end.

(** A call that reaches the GitHub client or the credential provider. *)
Definition is_client_call {File : Type} (e : ui_event File) : bool :=
  match e with
  | Call ev => is_network ev
  | _ => false
  end.

Definition is_error_toast {File : Type} (e : ui_event File) : bool :=
  match e with
  | ToastError _ => true
  | _ => false
  end.

Definition is_confirm {File : Type} (e : ui_event File) : bool :=
  match e with
  | Confirm _ _ => true
  | _ => false
  end.

(** A browser for the runs against [Store]: the user confirms, a file is
    its own text, and importing a key signs the user in. *)
Definition browser : Browser Store.t string :=
  mkBrowser Store.t string
    (fun _ s => (true, s))
    (fun file s => (Ok file, s))
    (fun pem s =>
       (Ok tt,
        Store.mkStore (Some pem) (Store.writable s) (Store.refs s)
          (Store.trees s) (Store.commits s))).

(** A browser whose file cannot be read. *)
Definition unreadable : Browser Store.t string :=
  mkBrowser Store.t string
    (fun _ s => (true, s))
    (fun file s => (Err (Error "unreadable"), s))
    (fun pem s => (Ok tt, s)).

(** The page in edit mode with some posts selected. *)
Definition editing (auth : bool) (slugs : list string) : View :=
  mkView auth true slugs false true.

End Archive.

(** A repository whose branch points to a commit that is not in storage:
    the branch can be read, its files cannot be listed. *)
Definition dangling : Store.t :=
  Store.mkStore (Some "token") true [("heads/main", "commit-9")]
    (Store.trees Store.initial) (Store.commits Store.initial).

(** * Paths are told apart by their text *)

Lemma list_ascii_of_string_app (a b : string) :
  list_ascii_of_string (a ++ b)
  = list_ascii_of_string a ++ list_ascii_of_string b.
Proof.
  induction a as [| c a IH]; cbn; [reflexivity | now rewrite IH].
Qed.

Lemma list_ascii_of_string_inj (a b : string) :
  list_ascii_of_string a = list_ascii_of_string b -> a = b.
Proof.
  intros H. rewrite <- (string_of_list_ascii_of_string a),
    <- (string_of_list_ascii_of_string b). now rewrite H.
Qed.

Lemma string_app_inv_head (p a b : string) :
  (p ++ a)%string = (p ++ b)%string -> a = b.
Proof.
  induction p as [| c p IH]; cbn; intros H; [assumption |].
  injection H as H. auto.
Qed.

Lemma string_app_inv_tail (a b c : string) :
  (a ++ c)%string = (b ++ c)%string -> a = b.
Proof.
  intros H. apply list_ascii_of_string_inj.
  apply (f_equal list_ascii_of_string) in H.
  rewrite !list_ascii_of_string_app in H.
  now apply app_inv_tail in H.
Qed.

Lemma mdPath_inj (s s' : string) : mdPath s = mdPath s' -> s = s'.
Proof.
  unfold mdPath. intros H. apply string_app_inv_head in H.
  now apply string_app_inv_tail in H.
Qed.

Lemma mdxPath_inj (s s' : string) : mdxPath s = mdxPath s' -> s = s'.
Proof.
  unfold mdxPath. intros H. apply string_app_inv_head in H.
  now apply string_app_inv_tail in H.
Qed.

Lemma mdPath_mdxPath (s s' : string) : mdPath s <> mdxPath s'.
Proof.
  unfold mdPath, mdxPath. intros H. apply string_app_inv_head in H.
  apply (f_equal list_ascii_of_string) in H.
  rewrite !list_ascii_of_string_app in H. cbn in H.
  change (list_ascii_of_string s ++ ["."; "m"; "d"]%char)
    with (list_ascii_of_string s ++ ["."; "m"]%char ++ ["d"%char]) in H.
  change (list_ascii_of_string s' ++ ["."; "m"; "d"; "x"]%char)
    with (list_ascii_of_string s' ++ ["."; "m"; "d"]%char ++ ["x"%char]) in H.
  rewrite !app_assoc in H. apply app_inj_tail in H.
  destruct H as [_ H]. discriminate H.
Qed.

Lemma path_deletion (l : list string) : map path (map deletion l) = l.
Proof.
  induction l as [| p l IH]; cbn; [reflexivity | now rewrite IH].
Qed.

Lemma in_slugPaths (resolved : list (string * list string)) (p : string) :
  In p (flat_map slugPaths resolved)
  <-> exists slug fs,
        In (slug, fs) resolved
        /\ (In p fs \/ p = mdPath slug \/ p = mdxPath slug).
Proof.
  rewrite in_flat_map. unfold slugPaths. split.
  - intros ([slug fs] & Hin & Hp). exists slug, fs. split; [exact Hin |].
    cbn [fst snd] in Hp. rewrite in_app_iff in Hp. cbn in Hp.
    intuition auto.
  - intros (slug & fs & Hin & Hp). exists (slug, fs). split; [exact Hin |].
    cbn [fst snd]. rewrite in_app_iff. cbn. intuition auto.
Qed.

Lemma NoDup_app_disjoint (A : Type) (l l' : list A) (a : A) :
  NoDup (l ++ l') -> In a l -> In a l' -> False.
Proof.
  induction l as [| b l IH]; cbn; intros Hnd Hin Hin'; [contradiction |].
  inversion Hnd as [| ? ? Hnot Hnd']; subst.
  destruct Hin as [-> | Hin]; [| now apply IH].
  apply Hnot. rewrite in_app_iff. now right.
Qed.

(** Without any deduplication in the loop, the paths are pairwise
    distinct as soon as the slugs are, the listed files are, and no listed
    file is a content entry of a requested slug. *)
Lemma NoDup_slugPaths (slugs : list string) :
  forall files : list (list string),
    length files = length slugs ->
    NoDup slugs ->
    NoDup (concat files) ->
    (forall p slug, In p (concat files) -> In slug slugs ->
       p <> mdPath slug /\ p <> mdxPath slug) ->
    NoDup (flat_map slugPaths (combine slugs files)).
Proof.
  induction slugs as [| slug slugs IH]; intros [| f files] Hlen Hs Hf Hsep;
    cbn in Hlen; try discriminate Hlen; [constructor |].
  cbn [combine flat_map]. unfold slugPaths at 1. cbn [fst snd].
  cbn [concat] in Hf, Hsep.
  inversion Hs as [| ? ? Hfresh Hs']; subst.
  assert (Hmd : forall s, mdPath s <> mdxPath s)
    by (intros; apply mdPath_mdxPath).
  apply NoDup_app.
  - apply NoDup_app.
    + now apply NoDup_app_remove_r in Hf.
    + constructor; [| constructor; [intros [] | constructor]].
      intros [Heq | []]. now apply (Hmd slug).
    + intros a Ha Hin.
      destruct (Hsep a slug) as [Hnmd Hnmdx];
        [apply in_or_app; now left | now left |].
      destruct Hin as [Heq | [Heq | []]]; congruence.
  - apply IH; [congruence | assumption | now apply NoDup_app_remove_l in Hf |].
    intros p s Hp Hin. apply Hsep; [apply in_or_app; now right | now right].
  - intros a Ha Hrest. apply in_slugPaths in Hrest.
    destruct Hrest as (s' & f' & Hin & Hp).
    pose proof (in_combine_l _ _ _ _ Hin) as Hs'in.
    pose proof (in_combine_r _ _ _ _ Hin) as Hf'in.
    assert (Hcat : forall x, In x f' -> In x (f ++ concat files)).
    { intros x Hx. apply in_or_app. right. apply in_concat. eauto. }
    rewrite in_app_iff in Ha. cbn in Ha.
    destruct Ha as [Ha | [<- | [<- | []]]].
    + destruct Hp as [Hp | [-> | ->]].
      * apply (NoDup_app_disjoint _ _ _ a Hf Ha). apply in_concat. eauto.
      * destruct (Hsep (mdPath s') s');
          [apply in_or_app; now left | now right |].
        congruence.
      * destruct (Hsep (mdxPath s') s');
          [apply in_or_app; now left | now right |].
        congruence.
    + destruct Hp as [Hp | [Hp | Hp]].
      * destruct (Hsep (mdPath slug) slug); [now apply Hcat | now left |].
        congruence.
      * apply mdPath_inj in Hp. subst s'. contradiction.
      * now apply mdPath_mdxPath in Hp.
    + destruct Hp as [Hp | [Hp | Hp]].
      * destruct (Hsep (mdxPath slug) slug); [now apply Hcat | now left |].
        congruence.
      * symmetry in Hp. now apply mdPath_mdxPath in Hp.
      * apply mdxPath_inj in Hp. subst s'. contradiction.
Qed.

(** The decimal rendering of a number reads back as that number. *)
Lemma number_to_string_reads_back (n : nat) :
  option_map Nat.of_uint (NilZero.uint_of_string (number_to_string n))
  = Some n.
Proof.
  unfold number_to_string. rewrite NilZero.usu.
  - cbn. now rewrite DecimalNat.Unsigned.of_to.
  - rewrite <- (DecimalNat.Unsigned.of_to n) at 1.
    rewrite DecimalNat.Unsigned.to_of. apply DecimalFacts.unorm_nonnil.
Qed.

(** * Properties of every run *)

Section Properties.

Variable W : Type.
Variable GITHUB_CONFIG : GithubConfig.
Variable client : Client W.

Local Abbreviation loop := (forEachSlug GITHUB_CONFIG client).

(** Unfolds one awaited call and splits on how it settled. *)
Ltac settle H :=
  match type of H with
  | context [call_getAuthToken ?c ?w] =>
      destruct (call_getAuthToken c w) as [[?token | ?e] ?w] eqn:?
  | context [call_getRef ?c ?a ?b ?d ?f ?w] =>
      destruct (call_getRef c a b d f w) as [[?refData | ?e] ?w] eqn:?
  | context [call_listRepoFilesRecursive ?c ?a ?b ?d ?f ?g ?w] =>
      destruct (call_listRepoFilesRecursive c a b d f g w)
        as [[?imageFiles | ?e] ?w] eqn:?
  | context [call_createTree ?c ?a ?b ?d ?f ?g ?w] =>
      destruct (call_createTree c a b d f g w) as [[?treeData | ?e] ?w] eqn:?
  | context [call_createCommit ?c ?a ?b ?d ?f ?g ?h ?w] =>
      destruct (call_createCommit c a b d f g h w)
        as [[?commitData | ?e] ?w] eqn:?
  | context [call_updateRef ?c ?a ?b ?d ?f ?g ?w] =>
      destruct (call_updateRef c a b d f g w) as [[[] | ?e] ?w] eqn:?
  end; cbn [fst snd] in H.

Ltac unfold_calls H :=
  unfold bind, toast_info, toast_success, emit, getAuthToken, getRef,
    listRepoFilesRecursive, createTree, createCommit, updateRef, await,
    ret, throw in H.

Lemma mutations_cons (sf : string * list string)
    (resolved : list (string * list string)) :
  mutations (sf :: resolved)
  = map deletion (snd sf)
      ++ [deletion (mdPath (fst sf)); deletion (mdxPath (fst sf))]
      ++ mutations resolved.
Proof.
  unfold mutations, slugPaths. cbn [flat_map].
  rewrite !map_app. cbn [map]. rewrite <- !app_assoc. reflexivity.
Qed.

(** The loop: either every listing answered, or the first rejection ends
    it. *)
Lemma forEachSlug_run (token : string) (slugs : list string) :
  forall acc w r w' t,
    loop token slugs acc w = (r, w', t) ->
    match r with
    | Ok items =>
        exists files,
          length files = length slugs /\
          t = resolution GITHUB_CONFIG token (combine slugs files) /\
          items = acc ++ mutations (combine slugs files)
    | Err e =>
        exists done files slug rest,
          slugs = done ++ slug :: rest /\
          length files = length done /\
          t = resolution GITHUB_CONFIG token (combine done files)
                ++ [slugToast slug; listing GITHUB_CONFIG token slug (Err e)]
    end.
Proof.
  induction slugs as [| slug rest IH]; intros acc w r w' t H.
  - cbn in H. injection H as <- <- <-.
    exists []. cbn. rewrite app_nil_r. auto.
  - cbn [forEachSlug] in H. unfold_calls H.
    settle H.
    + destruct (loop token rest _ w0) as [[r2 w2] t2] eqn:Hrest.
      injection H as <- <- <-.
      apply IH in Hrest. destruct r2 as [items | e].
      * destruct Hrest as (files & Hlen & -> & ->).
        exists (imageFiles :: files). cbn [length combine].
        split; [congruence |]. split; [reflexivity |].
        rewrite mutations_cons. cbn [fst snd].
        rewrite <- !app_assoc. reflexivity.
      * destruct Hrest as (done & files & s & rest' & -> & Hlen & ->).
        exists (slug :: done), (imageFiles :: files), s, rest'.
        cbn [length]. split; [reflexivity |]. split; [congruence |].
        reflexivity.
    + injection H as <- <- <-.
      exists [], [], slug, rest. cbn. auto.
Qed.

(** Every call with a non-empty list has one of the seven shapes. *)
Lemma batchDeleteBlogs_run (slugs : list string) (w w' : W)
    (r : result unit) (t : list event) :
  slugs <> [] ->
  batchDeleteBlogs GITHUB_CONFIG client (Some slugs) w = (r, w', t) ->
  Run GITHUB_CONFIG slugs r t.
Proof.
  intros Hne H. destruct slugs as [| slug0 rest0]; [congruence | clear Hne].
  unfold batchDeleteBlogs in H.
  remember (slug0 :: rest0) as slugs eqn:Hslugs. clear Hslugs.
  unfold_calls H.
  settle H; [| injection H as <- <- <-; constructor].
  settle H; [| injection H as <- <- <-; apply Run_ref].
  destruct (loop token slugs [] w1) as [[[items | e] w2] t2] eqn:Hloop;
    apply forEachSlug_run in Hloop.
  2:{ destruct Hloop as (done & files & s & rest' & -> & Hlen & ->).
      injection H as <- <- <-.
      apply (Run_list GITHUB_CONFIG _ token refData done files s rest' e);
        auto. }
  destruct Hloop as (files & Hlen & -> & ->). cbn [app] in H.
  settle H.
  2:{ injection H as <- <- <-.
      apply (Run_tree GITHUB_CONFIG slugs token refData files e Hlen). }
  settle H.
  2:{ injection H as <- <- <-.
      apply (Run_commit GITHUB_CONFIG slugs token refData files treeData e
               Hlen). }
  settle H; injection H as <- <- <-.
  - apply (Run_done GITHUB_CONFIG slugs token refData files treeData
             commitData Hlen).
  - apply (Run_update GITHUB_CONFIG slugs token refData files treeData
             commitData e Hlen).
Qed.

(** *** What the loop leaves in the log *)

Lemma in_resolution (token : string)
    (resolved : list (string * list string)) (ev : event) :
  In ev (resolution GITHUB_CONFIG token resolved) ->
  exists sf, In sf resolved /\
    (ev = slugToast (fst sf)
     \/ ev = listing GITHUB_CONFIG token (fst sf) (Ok (snd sf))).
Proof.
  unfold resolution. rewrite in_flat_map. intros (sf & Hin & Hev).
  exists sf. split; [assumption |]. cbn in Hev. intuition auto.
Qed.

Lemma filter_resolution_nil (p : event -> bool) (token : string)
    (resolved : list (string * list string)) :
  (forall s, p (slugToast s) = false) ->
  (forall s r, p (listing GITHUB_CONFIG token s r) = false) ->
  filter p (resolution GITHUB_CONFIG token resolved) = [].
Proof.
  intros Ht Hl. induction resolved as [| sf resolved IH]; [reflexivity |].
  cbn. rewrite Ht, Hl. exact IH.
Qed.

Lemma toasts_resolution (token : string)
    (resolved : list (string * list string)) :
  filter is_toast (resolution GITHUB_CONFIG token resolved)
  = map slugToast (map fst resolved).
Proof.
  induction resolved as [| sf resolved IH]; [reflexivity |].
  cbn. now rewrite <- IH.
Qed.

Lemma network_resolution (token : string)
    (resolved : list (string * list string)) :
  filter is_network (resolution GITHUB_CONFIG token resolved)
  = map (fun sf => listing GITHUB_CONFIG token (fst sf) (Ok (snd sf)))
      resolved.
Proof.
  induction resolved as [| sf resolved IH]; [reflexivity |].
  cbn. now rewrite <- IH.
Qed.

Lemma listings_resolution (token : string)
    (resolved : list (string * list string)) :
  filter is_listing (resolution GITHUB_CONFIG token resolved)
  = map (fun sf => listing GITHUB_CONFIG token (fst sf) (Ok (snd sf)))
      resolved.
Proof.
  induction resolved as [| sf resolved IH]; [reflexivity |].
  cbn. now rewrite <- IH.
Qed.

Lemma before_createTree_resolution (token : string)
    (resolved : list (string * list string)) (l : list event) :
  before_createTree (resolution GITHUB_CONFIG token resolved ++ l)
  = resolution GITHUB_CONFIG token resolved ++ before_createTree l.
Proof.
  induction resolved as [| sf resolved IH]; [reflexivity |].
  cbn. do 2 f_equal. exact IH.
Qed.

Lemma mutationSetOf_resolution (token : string)
    (resolved : list (string * list string)) (l : list event) :
  mutationSetOf (resolution GITHUB_CONFIG token resolved ++ l)
  = mutationSetOf l.
Proof.
  induction resolved as [| sf resolved IH]; [reflexivity |].
  cbn. exact IH.
Qed.

Lemma map_fst_combine (A B : Type) (l : list A) (l' : list B) :
  length l' = length l -> map fst (combine l l') = l.
Proof.
  revert l'. induction l as [| a l IH]; intros [| b l'] H;
    cbn in *; try congruence.
  f_equal. apply IH. congruence.
Qed.

(** Splits [In ev t], for [t] one of the seven shapes, into the places
    where [ev] can sit. *)
Ltac locate H :=
  unfold opening, treeStage, commitStage, updateStage, successToast in H;
  repeat rewrite in_app_iff in H; cbn [In] in H;
  decompose [or] H; clear H; try contradiction; try discriminate;
  try match goal with
      | Hr : In _ (resolution _ _ _) |- _ =>
          apply in_resolution in Hr;
          destruct Hr as (? & _ & [Hr | Hr]); discriminate Hr
      end.

(** *** The world between the calls *)

Lemma forEachSlug_frame (X : Type) (pointer : W -> X) (token : string)
    (slugs : list string) :
  only_updateRef_moves client pointer ->
  forall acc w r w' t,
    loop token slugs acc w = (r, w', t) -> pointer w' = pointer w.
Proof.
  intros (_ & _ & Hlist & _).
  induction slugs as [| slug rest IH]; intros acc w r w' t H.
  - cbn in H. now injection H as <- <- <-.
  - cbn [forEachSlug] in H. unfold_calls H.
    pose proof (Hlist token (OWNER GITHUB_CONFIG) (REPO GITHUB_CONFIG)
                  (imagesPath slug) (BRANCH GITHUB_CONFIG) w) as Hstep.
    settle H; cbn [snd] in Hstep.
    + destruct (loop token rest _ w0) as [[r2 w2] t2] eqn:Hrest.
      injection H as <- <- <-. apply IH in Hrest. congruence.
    + injection H as <- <- <-. exact Hstep.
Qed.

(** A run that never calls [updateRef] leaves the pointer where it was. *)
Lemma batchDeleteBlogs_frame (X : Type) (pointer : W -> X)
    (slugs : option (list string)) (w w' : W) (r : result unit)
    (t : list event) :
  only_updateRef_moves client pointer ->
  batchDeleteBlogs GITHUB_CONFIG client slugs w = (r, w', t) ->
  (forall ev, In ev t -> is_updateRef ev = false) ->
  pointer w' = pointer w.
Proof.
  intros Hq H Hno.
  destruct slugs as [[| slug0 rest0] |];
    try (cbn in H; now injection H as <- <- <-).
  unfold batchDeleteBlogs in H.
  remember (slug0 :: rest0) as slugs eqn:Hslugs. clear Hslugs.
  pose proof (forEachSlug_frame X pointer) as Hloop.
  specialize (fun token slugs => Hloop token slugs Hq).
  destruct Hq as (Hauth & Href & _ & Htree & Hcommit).
  unfold_calls H.
  specialize (Hauth w). settle H; cbn [snd] in Hauth;
    [| injection H as <- <- <-; exact Hauth].
  match type of H with context [call_getRef _ ?a ?b ?c ?d ?w] =>
    specialize (Href a b c d w) end.
  settle H; cbn [snd] in Href;
    [| injection H as <- <- <-; congruence].
  destruct (loop token slugs [] w1) as [[[items | e] w2] t2] eqn:El;
    apply Hloop in El;
    [| injection H as <- <- <-; congruence].
  match type of H with context [call_createTree _ ?a ?b ?c ?d ?e ?w] =>
    specialize (Htree a b c d e w) end.
  settle H; cbn [snd] in Htree;
    [| injection H as <- <- <-; congruence].
  match type of H with context [call_createCommit _ ?a ?b ?c ?d ?e ?f ?w] =>
    specialize (Hcommit a b c d e f w) end.
  settle H; cbn [snd] in Hcommit;
    [| injection H as <- <- <-; congruence].
  exfalso.
  settle H; injection H as <- <- <-;
    match goal with
    | Hno : forall ev, In ev ?t -> _ |- _ =>
        match t with
        | context [UpdateRef ?a ?b ?c ?d ?e ?r] =>
            specialize (Hno (UpdateRef a b c d e r))
        end
    end;
    (assert (true = false) as Habs; [| discriminate Habs]);
    apply Hno; cbn; repeat rewrite in_app_iff; cbn; intuition auto.
Qed.

(** *** Scanning a log with a test *)

Lemma existsb_resolution_false (p : event -> bool) (token : string)
    (resolved : list (string * list string)) :
  (forall s, p (slugToast s) = false) ->
  (forall s r, p (listing GITHUB_CONFIG token s r) = false) ->
  existsb p (resolution GITHUB_CONFIG token resolved) = false.
Proof.
  intros Ht Hl. induction resolved as [| sf resolved IH]; [reflexivity |].
  cbn. rewrite Ht, Hl. exact IH.
Qed.

Lemma existsb_false_In (A : Type) (p : A -> bool) (l : list A) :
  existsb p l = false -> forall x, In x l -> p x = false.
Proof.
  intros H x Hin. destruct (p x) eqn:E; [| reflexivity].
  rewrite <- H. symmetry. apply existsb_exists. eauto.
Qed.

Ltac scan :=
  unfold opening, treeStage, commitStage, updateStage, successToast;
  repeat rewrite existsb_app;
  rewrite ?existsb_resolution_false by (intros; reflexivity);
  cbn.

Ltac scan_in H :=
  unfold opening, treeStage, commitStage, updateStage, successToast in H;
  repeat rewrite existsb_app in H;
  rewrite ?existsb_resolution_false in H by (intros; reflexivity);
  cbn in H.

Ltac sift :=
  unfold opening, treeStage, commitStage, updateStage, successToast;
  repeat rewrite filter_app;
  rewrite ?filter_resolution_nil by (intros; reflexivity);
  rewrite ?toasts_resolution;
  unfold slugToast, listing;
  cbn [filter is_getRef is_createCommit is_toast is_network is_listing
       negb app length].

(** ** The claims *)

(** C4.  A call with an empty list, or with no list at all, is rejected
    with the input error of line 7 before anything else happens: the log
    of the call is empty (no credential request, no notification, no
    branch read, no listing, no tree, commit or reference update) and the
    world is as it was. *)
Theorem empty_slugs_rejected_before_any_call (w : W) :
  batchDeleteBlogs GITHUB_CONFIG client None w
  = (Err (Error "需要 slugs"), w, [])
  /\ batchDeleteBlogs GITHUB_CONFIG client (Some []) w
     = (Err (Error "需要 slugs"), w, []).
Proof. split; reflexivity. Qed.

(** C9.  Every call with a non-empty list starts by asking for the
    credential, and when that request is rejected the call ends there
    with the same error: nothing follows the request in the log, so no
    branch read, no listing and no other external call is made. *)
Theorem credential_failure_aborts_before_resolution
    (slugs : list string) (w w' : W) (r : result unit) (t : list event) :
  slugs <> [] ->
  batchDeleteBlogs GITHUB_CONFIG client (Some slugs) w = (r, w', t) ->
  exists t',
    t = GetAuthToken (fst (call_getAuthToken client w)) :: t'
    /\ (forall e,
          fst (call_getAuthToken client w) = Err e ->
          r = Err e /\ t' = []
          /\ w' = snd (call_getAuthToken client w))
    /\ (forall ev, In ev t' -> is_storage ev = true ->
          exists token, fst (call_getAuthToken client w) = Ok token).
Proof.
  intros Hne H. destruct slugs as [| slug0 rest0]; [congruence | clear Hne].
  unfold batchDeleteBlogs in H. unfold bind at 1 in H.
  unfold getAuthToken, await in H.
  destruct (call_getAuthToken client w) as [[token | e] w0] eqn:Hauth;
    cbn [fst snd].
  - match type of H with
    | match ?k with _ => _ end = _ => destruct k as [[r2 w2] t2]
    end.
    injection H as <- <- <-. exists t2. cbn [app].
    split; [reflexivity |]. split; [discriminate |]. eauto.
  - injection H as <- <- <-. exists []. split; [reflexivity |].
    split.
    + intros e0 [= <-]. auto.
    + intros ev [].
Qed.

(** C3.  When the storage rejects the tree creation or the commit
    creation, the call fails with that error and its log holds no
    [updateRef] call; whatever only [updateRef] can move (the branch
    pointer) is then where it was before the call. *)
Theorem construction_failure_leaves_branch_untouched
    (slugs : option (list string)) (w w' : W) (r : result unit)
    (t : list event) :
  batchDeleteBlogs GITHUB_CONFIG client slugs w = (r, w', t) ->
  (exists ev, In ev t /\ construction_rejected ev = true) ->
  (exists e, r = Err e)
  /\ (forall ev, In ev t -> is_updateRef ev = false)
  /\ (forall (X : Type) (pointer : W -> X),
        only_updateRef_moves client pointer -> pointer w' = pointer w).
Proof.
  intros H Hrej.
  assert (Hex : existsb construction_rejected t = true)
    by (apply existsb_exists; exact Hrej).
  clear Hrej.
  assert (Hshape : (exists e, r = Err e)
                   /\ existsb is_updateRef t = false).
  { destruct slugs as [[| slug0 rest0] |];
      try (cbn in H; injection H as <- <- <-; discriminate Hex).
    apply batchDeleteBlogs_run in H; [| discriminate].
    inversion H; subst; scan_in Hex; try discriminate Hex;
      (split; [eauto | scan; reflexivity]). }
  destruct Hshape as [Herr Hno].
  pose proof (existsb_false_In _ _ _ Hno) as Hno'.
  split; [exact Herr |]. split; [exact Hno' |].
  intros X pointer Hq. eapply batchDeleteBlogs_frame; eauto.
Qed.

(** C5 (as the code has it).  In every call that reaches the tree
    creation the branch head is read once, at the start; between that read
    and the [createTree] call the function issues one listing call per
    slug, in the order of the list, and no other network operation; and
    the commit that was read is the base [createTree] is given. *)
Theorem branch_head_read_once_before_listings
    (slugs : list string) (w w' : W) (r : result unit) (t : list event) :
  batchDeleteBlogs GITHUB_CONFIG client (Some slugs) w = (r, w', t) ->
  mutationSetOf t <> None ->
  exists token rd files,
    length files = length slugs
    /\ filter is_getRef t
       = [GetRef token (OWNER GITHUB_CONFIG) (REPO GITHUB_CONFIG)
            (headsRef GITHUB_CONFIG) (Ok rd)]
    /\ between_read_and_tree t
       = map (fun sf => listing GITHUB_CONFIG token (fst sf) (Ok (snd sf)))
           (combine slugs files)
    /\ (forall tok o rp tree base rt,
          In (CreateTree tok o rp tree base rt) t -> base = ref_sha rd).
Proof.
  intros H Hms.
  destruct slugs as [| slug0 rest0];
    [cbn in H; injection H as <- <- <-; now elim Hms |].
  apply batchDeleteBlogs_run in H; [| discriminate].
  remember (slug0 :: rest0) as slugs eqn:Hslugs. clear Hslugs.
  inversion H; subst;
    try (exfalso; apply Hms; unfold opening; cbn [app mutationSetOf];
         rewrite ?mutationSetOf_resolution; reflexivity);
    exists token, rd, files; (split; [assumption |]);
    (split; [sift; reflexivity | split]);
    try (unfold between_read_and_tree, opening; cbn [app after_getRef];
         rewrite before_createTree_resolution;
         unfold treeStage; cbn [app before_createTree];
         rewrite filter_app, network_resolution; cbn; apply app_nil_r);
    intros tok o rp tree base rt Hin; locate Hin;
    match goal with
    | Hq : CreateTree _ _ _ _ _ _ = _ |- _ => now injection Hq
    end.
Qed.

(** C6.  A call creates at most one commit; a call that succeeds, and
    more generally every call whose tree was created, issues exactly one
    [createCommit] call; and every [createCommit] call is given exactly
    one parent, the commit that the one [getRef] call of the transaction
    read from the branch head. *)
Theorem one_commit_whose_sole_parent_is_base
    (slugs : list string) (w w' : W) (r : result unit) (t : list event) :
  batchDeleteBlogs GITHUB_CONFIG client (Some slugs) w = (r, w', t) ->
  length (filter is_createCommit t) <= 1
  /\ (r = Ok tt -> length (filter is_createCommit t) = 1)
  /\ (forall tok o rp items base td,
        In (CreateTree tok o rp items base (Ok td)) t ->
        length (filter is_createCommit t) = 1)
  /\ (forall tok o rp msg tree ps rc,
        In (CreateCommit tok o rp msg tree ps rc) t ->
        exists rd,
          filter is_getRef t
          = [GetRef tok o rp (headsRef GITHUB_CONFIG) (Ok rd)]
          /\ ps = [ref_sha rd]).
Proof.
  intros H.
  destruct slugs as [| slug0 rest0].
  { cbn in H. injection H as <- <- <-. cbn.
    split; [lia |]. split; [discriminate |].
    split; intros; contradiction. }
  apply batchDeleteBlogs_run in H; [| discriminate].
  remember (slug0 :: rest0) as slugs eqn:Hslugs. clear Hslugs.
  inversion H; subst;
    (split; [sift; lia |]);
    (split; [intros Hr; try discriminate Hr; sift; reflexivity |]);
    (split; [intros tok o rp items base td0 Hin; locate Hin;
             sift; reflexivity |]);
    intros tok o rp msg tree ps rc Hin; locate Hin;
    match goal with
    | Hq : CreateCommit _ _ _ _ _ _ _ = _ |- _ =>
        injection Hq as <- <- <- <- <- <- <-
    end;
    exists rd; (split; [sift; reflexivity | reflexivity]).
Qed.

(** C10.  Within one call, the base given to [createTree] and the parent
    list given to [createCommit] come from the same read: the log holds
    one [getRef] call, the base is the commit it answered and the parent
    list is that commit alone. *)
Theorem tree_base_is_commit_parent
    (slugs : list string) (w w' : W) (r : result unit) (t : list event) :
  batchDeleteBlogs GITHUB_CONFIG client (Some slugs) w = (r, w', t) ->
  forall tok o rp items base rt tok' o' rp' msg tree ps rc,
    In (CreateTree tok o rp items base rt) t ->
    In (CreateCommit tok' o' rp' msg tree ps rc) t ->
    ps = [base]
    /\ exists rd,
         filter is_getRef t
         = [GetRef tok o rp (headsRef GITHUB_CONFIG) (Ok rd)]
         /\ base = ref_sha rd.
Proof.
  intros H.
  destruct slugs as [| slug0 rest0].
  { cbn in H. injection H as <- <- <-. intros; contradiction. }
  apply batchDeleteBlogs_run in H; [| discriminate].
  remember (slug0 :: rest0) as slugs eqn:Hslugs. clear Hslugs.
  intros tok o rp items base rt tok' o' rp' msg tree ps rc Htree Hcommit.
  inversion H; subst; locate Hcommit; locate Htree;
    match goal with
    | Hq : CreateCommit _ _ _ _ _ _ _ = _ |- _ =>
        injection Hq as <- <- <- <- <- <- <-
    end;
    match goal with
    | Hq : CreateTree _ _ _ _ _ _ = _ |- _ =>
        injection Hq as <- <- <- <- <- <-
    end;
    (split; [reflexivity |]); exists rd;
    (split; [sift; reflexivity | reflexivity]).
Qed.

(** C7.  The commit message is built from the number of slugs: for a list
    of one slug it is the singular form naming that slug, for a longer
    list the aggregate form holding the length of the list in decimal.
    This is the message of the commit: every [createCommit] call is given
    it, a call whose tree was created issues [createCommit] with it (on
    that tree and on the base of the tree), and a call that succeeds has
    created a commit with it. *)
Theorem commit_message_follows_count_policy :
  (forall slug, message [slug] = ("删除文章: " ++ slug)%string)
  /\ (forall slugs,
        1 < length slugs ->
        message slugs
        = ("批量删除文章: " ++ number_to_string (length slugs) ++ " 篇")%string
        /\ option_map Nat.of_uint
             (NilZero.uint_of_string (number_to_string (length slugs)))
           = Some (length slugs))
  /\ (forall slugs w w' r t tok o rp msg tree ps rc,
        batchDeleteBlogs GITHUB_CONFIG client (Some slugs) w = (r, w', t) ->
        In (CreateCommit tok o rp msg tree ps rc) t ->
        msg = message slugs)
  /\ (forall slugs w w' r t tok o rp items base td,
        batchDeleteBlogs GITHUB_CONFIG client (Some slugs) w = (r, w', t) ->
        In (CreateTree tok o rp items base (Ok td)) t ->
        exists rc,
          In (CreateCommit tok o rp (message slugs) (tree_sha td) [base] rc)
             t)
  /\ (forall slugs w w' t,
        batchDeleteBlogs GITHUB_CONFIG client (Some slugs) w
        = (Ok tt, w', t) ->
        exists tok tree ps cd,
          In (CreateCommit tok (OWNER GITHUB_CONFIG) (REPO GITHUB_CONFIG)
                (message slugs) tree ps (Ok cd)) t).
Proof.
  split; [reflexivity |]. split; [| split; [| split]].
  - intros slugs Hlen. split; [| apply number_to_string_reads_back].
    unfold message. destruct (Nat.eqb_spec (length slugs) 1); [lia |].
    reflexivity.
  - intros slugs w w' r t tok o rp msg tree ps rc H Hin.
    destruct slugs as [| slug0 rest0].
    { cbn in H. injection H as <- <- <-. contradiction. }
    apply batchDeleteBlogs_run in H; [| discriminate].
    remember (slug0 :: rest0) as slugs eqn:Hslugs. clear Hslugs.
    inversion H; subst; locate Hin;
      match goal with
      | Hq : CreateCommit _ _ _ _ _ _ _ = _ |- _ =>
          now injection Hq as <- <- <- <- <- <- <-
      end.
  - intros slugs w w' r t tok o rp items base td H Hin.
    destruct slugs as [| slug0 rest0].
    { cbn in H. injection H as <- <- <-. contradiction. }
    apply batchDeleteBlogs_run in H; [| discriminate].
    remember (slug0 :: rest0) as slugs eqn:Hslugs. clear Hslugs.
    inversion H; subst; locate Hin;
      match goal with
      | Hq : CreateTree _ _ _ _ _ _ = _ |- _ =>
          injection Hq as <- <- <- <- <- <-
      end;
      eexists; unfold opening, treeStage, commitStage;
      repeat rewrite in_app_iff; cbn [In]; eauto 12.
  - intros slugs w w' t H.
    destruct slugs as [| slug0 rest0]; [discriminate H |].
    apply batchDeleteBlogs_run in H; [| discriminate].
    remember (slug0 :: rest0) as slugs eqn:Hslugs. clear Hslugs.
    inversion H; subst.
    exists token, (tree_sha td), [ref_sha rd], cd.
    unfold opening, treeStage, commitStage.
    repeat rewrite in_app_iff. cbn [In]. auto 10.
Qed.

Lemma announced_resolution (token : string)
    (resolved : list (string * list string)) (rest : list event) :
  announced rest ->
  announced (resolution GITHUB_CONFIG token resolved ++ rest).
Proof.
  intros Hrest. induction resolved as [| sf resolved IH]; [exact Hrest |].
  change (announces ("正在处理: " ++ fst sf ++ "...")%string
            (listing GITHUB_CONFIG token (fst sf) (Ok (snd sf)))
          /\ announced (resolution GITHUB_CONFIG token resolved ++ rest)).
  split; [| exact IH]. exists (fst sf). split; reflexivity.
Qed.

(** C8.  A call with a non-empty list emits each progress notification
    at its stage: the log has one of the seven shapes of [Run], in which,
    after the credential request, notifications and calls alternate, each
    notification followed at once by the call of the stage it names
    (branch read, listing of one slug, tree creation, commit creation,
    reference update).  A call that succeeds therefore emits, in this
    order, the notification of the branch read, one per slug in the order
    of the list, those of the tree creation, the commit creation and the
    reference update, and then, as the last entry, the success
    notification.  A call that fails stops at the rejected call: its
    notifications are those of the stages up to the one that failed, a
    prefix of the five groups, and no success notification is emitted. *)
Theorem progress_notifications_in_order
    (slugs : list string) (w w' : W) (r : result unit) (t : list event) :
  slugs <> [] ->
  batchDeleteBlogs GITHUB_CONFIG client (Some slugs) w = (r, w', t) ->
  match r with
  | Ok _ => toasts t = progress slugs ++ [successToast]
  | Err _ =>
      (exists rest, progress slugs = toasts t ++ rest)
      /\ (forall msg, ~ In (ToastSuccess msg) t)
  end
  /\ Run GITHUB_CONFIG slugs r t
  /\ (exists r0 t', t = GetAuthToken r0 :: t' /\ announced t')
  /\ match r with
     | Ok _ => exists pre, t = pre ++ [successToast]
     | Err e =>
         exists pre call,
           t = pre ++ [call] /\ rejection call = Some e
           /\ length (toasts t)
              = length (filter is_storage t)
     end.
Proof.
  intros Hne H. apply batchDeleteBlogs_run in H; [| exact Hne].
  split; [| split; [exact H | split]].
  - unfold progress, toasts.
    inversion H; subst;
      try (split; [| intros msg Hin; locate Hin]);
      sift; rewrite ?map_fst_combine by assumption; fold slugToast.
    + eexists. reflexivity.
    + eexists. reflexivity.
    + exists (map slugToast rest
              ++ [ToastInfo "正在创建文件树..."; ToastInfo "正在创建提交...";
                  ToastInfo "正在更新分支..."]).
      rewrite map_app. cbn [map app]. rewrite <- !app_assoc. reflexivity.
    + eexists. cbn [app]. rewrite <- !app_assoc. reflexivity.
    + eexists. cbn [app]. rewrite <- !app_assoc. reflexivity.
    + exists []. cbn [app]. rewrite <- !app_assoc. reflexivity.
    + cbn [app]. rewrite <- !app_assoc. reflexivity.
  - inversion H; subst; unfold opening; cbn [app];
      eexists; eexists; (split; [reflexivity |]);
      try exact I;
      (split; [reflexivity |]);
      try exact I;
      apply announced_resolution;
      unfold treeStage, commitStage, updateStage, successToast, slugToast,
        listing;
      cbn [app announced announces]; repeat split; eauto.
  - assert (Hcount : forall token resolved,
              length (filter is_toast
                        (resolution GITHUB_CONFIG token resolved))
              = length (filter is_storage
                          (resolution GITHUB_CONFIG token resolved))).
    { intros token resolved.
      induction resolved as [| sf resolved IH]; [reflexivity |].
      cbn. f_equal. exact IH. }
    unfold toasts.
    inversion H; subst.
    + exists [], (GetAuthToken (Err e)). repeat split.
    + exists [GetAuthToken (Ok token); ToastInfo "正在获取分支信息..."],
        (GetRef token (OWNER GITHUB_CONFIG) (REPO GITHUB_CONFIG)
           (headsRef GITHUB_CONFIG) (Err e)).
      repeat split.
    + exists (opening GITHUB_CONFIG token (Ok rd)
              ++ resolution GITHUB_CONFIG token (combine done files)
              ++ [slugToast slug]),
        (listing GITHUB_CONFIG token slug (Err e)).
      split; [now rewrite <- !app_assoc |]. split; [reflexivity |].
      unfold opening. rewrite !filter_app, !length_app, Hcount.
      reflexivity.
    + exists (opening GITHUB_CONFIG token (Ok rd)
              ++ resolution GITHUB_CONFIG token (combine slugs files)
              ++ [ToastInfo "正在创建文件树..."]),
        (CreateTree token (OWNER GITHUB_CONFIG) (REPO GITHUB_CONFIG)
           (mutations (combine slugs files)) (ref_sha rd) (Err e)).
      split; [now rewrite <- !app_assoc |]. split; [reflexivity |].
      unfold opening. rewrite !filter_app, !length_app, Hcount.
      reflexivity.
    + exists (opening GITHUB_CONFIG token (Ok rd)
              ++ resolution GITHUB_CONFIG token (combine slugs files)
              ++ treeStage GITHUB_CONFIG token (combine slugs files)
                   (ref_sha rd) (Ok td)
              ++ [ToastInfo "正在创建提交..."]),
        (CreateCommit token (OWNER GITHUB_CONFIG) (REPO GITHUB_CONFIG)
           (message slugs) (tree_sha td) [ref_sha rd] (Err e)).
      split; [now rewrite <- !app_assoc |]. split; [reflexivity |].
      unfold opening. rewrite !filter_app, !length_app, Hcount.
      reflexivity.
    + exists (opening GITHUB_CONFIG token (Ok rd)
              ++ resolution GITHUB_CONFIG token (combine slugs files)
              ++ treeStage GITHUB_CONFIG token (combine slugs files)
                   (ref_sha rd) (Ok td)
              ++ commitStage GITHUB_CONFIG token slugs (tree_sha td)
                   (ref_sha rd) (Ok cd)
              ++ [ToastInfo "正在更新分支..."]),
        (UpdateRef token (OWNER GITHUB_CONFIG) (REPO GITHUB_CONFIG)
           (headsRef GITHUB_CONFIG) (commit_sha cd) (Err e)).
      split; [now rewrite <- !app_assoc |]. split; [reflexivity |].
      unfold opening. rewrite !filter_app, !length_app, Hcount.
      reflexivity.
    + exists (opening GITHUB_CONFIG token (Ok rd)
              ++ resolution GITHUB_CONFIG token (combine slugs files)
              ++ treeStage GITHUB_CONFIG token (combine slugs files)
                   (ref_sha rd) (Ok td)
              ++ commitStage GITHUB_CONFIG token slugs (tree_sha td)
                   (ref_sha rd) (Ok cd)
              ++ updateStage GITHUB_CONFIG token (commit_sha cd) (Ok tt)).
      now rewrite <- !app_assoc.
Qed.

(** C1 (as the code has it).  In every call that reaches the tree
    creation, every listing answered, and the mutation set handed to
    [createTree] holds, slug after slug in the order of the list, one
    deletion for each file the listing of that slug answered, then the two
    content entries of the slug, and nothing else.  The loop removes no
    duplicates: the paths of the mutation set are pairwise distinct when
    the slugs are pairwise distinct, the listed files are pairwise distinct
    over all slugs, and no listed file is a content entry of a requested
    slug. *)
Theorem mutation_set_lists_every_artifact
    (slugs : list string) (w w' : W) (r : result unit) (t : list event)
    (ms : list TreeItem) :
  batchDeleteBlogs GITHUB_CONFIG client (Some slugs) w = (r, w', t) ->
  mutationSetOf t = Some ms ->
  exists token files,
    length files = length slugs
    /\ filter is_listing t
       = map (fun sf => listing GITHUB_CONFIG token (fst sf) (Ok (snd sf)))
           (combine slugs files)
    /\ ms = map deletion (flat_map slugPaths (combine slugs files))
    /\ (forall p,
          In p (map path ms)
          <-> exists slug fs,
                In (slug, fs) (combine slugs files)
                /\ (In p fs \/ p = mdPath slug \/ p = mdxPath slug))
    /\ (NoDup slugs ->
        NoDup (concat files) ->
        (forall p slug, In p (concat files) -> In slug slugs ->
           p <> mdPath slug /\ p <> mdxPath slug) ->
        NoDup (map path ms)).
Proof.
  intros H Hms.
  destruct slugs as [| slug0 rest0];
    [cbn in H; injection H as <- <- <-; discriminate Hms |].
  apply batchDeleteBlogs_run in H; [| discriminate].
  remember (slug0 :: rest0) as slugs eqn:Hslugs. clear Hslugs.
  inversion H; subst;
    unfold opening, treeStage in Hms; cbn [app mutationSetOf] in Hms;
    rewrite ?mutationSetOf_resolution in Hms; cbn in Hms;
    try discriminate Hms;
    injection Hms as <-;
    exists token, files; (split; [assumption |]);
    (split; [sift; rewrite listings_resolution;
             cbn [app]; now rewrite ?app_nil_r |]);
    unfold mutations; (split; [reflexivity |]);
    rewrite path_deletion;
    (split; [intros p; apply in_slugPaths |]);
    intros; now apply NoDup_slugPaths.
Qed.

(** ** More on the service *)

Ltac sift_all :=
  unfold opening, treeStage, commitStage, updateStage, successToast;
  repeat rewrite filter_app;
  rewrite ?filter_resolution_nil by (intros; reflexivity);
  rewrite ?listings_resolution, ?network_resolution;
  unfold slugToast, listing;
  cbn [filter is_getRef is_createCommit is_toast is_network is_listing
       is_getAuthToken is_createTree is_updateRef is_write negb app];
  rewrite ?length_app, ?length_map, ?length_combine;
  cbn [length].

(** X1.  The function only deletes: every entry of every tree it asks for
    is a blob entry of mode 100644 whose sha is null. *)
Theorem tree_entries_only_delete
    (slugs : option (list string)) (w w' : W) (r : result unit)
    (t : list event) :
  batchDeleteBlogs GITHUB_CONFIG client slugs w = (r, w', t) ->
  forall tok o rp items base rt,
    In (CreateTree tok o rp items base rt) t ->
    Forall (fun it => sha it = None /\ mode it = "100644"
                      /\ type it = "blob") items.
Proof.
  intros H tok o rp items base rt Hin.
  destruct slugs as [[| slug0 rest0] |];
    try (cbn in H; injection H as <- <- <-; contradiction).
  apply batchDeleteBlogs_run in H; [| discriminate].
  remember (slug0 :: rest0) as slugs eqn:Hslugs. clear Hslugs.
  inversion H; subst; locate Hin;
    match goal with
    | Hq : CreateTree _ _ _ _ _ _ = _ |- _ =>
        injection Hq as <- <- <- <- <- <-
    end;
    unfold mutations; apply Forall_forall; intros it Hit;
    apply in_map_iff in Hit; destruct Hit as (p & <- & _);
    cbn; auto.
Qed.

(** X2.  A listing that is rejected ends the call with its error before
    anything is written: the log holds no tree creation, no commit
    creation and no reference update, and the slugs after the one whose
    listing failed are not listed. *)
Theorem listing_failure_writes_nothing
    (slugs : list string) (w w' : W) (r : result unit) (t : list event) :
  batchDeleteBlogs GITHUB_CONFIG client (Some slugs) w = (r, w', t) ->
  forall tok o rp dir br e,
    In (ListRepoFilesRecursive tok o rp dir br (Err e)) t ->
    r = Err e
    /\ (forall ev, In ev t -> is_write ev = false)
    /\ exists done slug rest,
         slugs = done ++ slug :: rest
         /\ dir = imagesPath slug
         /\ length (filter is_listing t) = S (length done).
Proof.
  intros H tok o rp dir br e Hin.
  destruct slugs as [| slug0 rest0];
    [cbn in H; injection H as <- <- <-; contradiction |].
  apply batchDeleteBlogs_run in H; [| discriminate].
  remember (slug0 :: rest0) as slugs eqn:Hslugs. clear Hslugs.
  inversion H; subst;
    unfold opening, treeStage, commitStage, updateStage, successToast in Hin;
    repeat rewrite in_app_iff in Hin; cbn [In] in Hin;
    decompose [or] Hin; clear Hin; try contradiction; try discriminate;
    try match goal with
        | Hr : In _ (resolution _ _ _) |- _ =>
            apply in_resolution in Hr;
            destruct Hr as (? & _ & [Hr | Hr]); discriminate Hr
        end.
  match goal with
  | Hq : listing _ _ _ _ = _ |- _ => injection Hq as <- <- <- <- <- <-
  end.
  split; [reflexivity |]. split.
  - apply existsb_false_In. scan. reflexivity.
  - exists done, slug, rest. split; [reflexivity |].
    split; [reflexivity |].
    sift_all. rewrite Nat.min_r by lia. lia.
Qed.

(** X3.  The objects of a call are chained: the tree handed to
    [createCommit] is the one [createTree] answered, the commit handed to
    [updateRef] is the one [createCommit] answered, and the reference that
    is updated is the reference that was read. *)
Theorem created_objects_are_chained
    (slugs : option (list string)) (w w' : W) (r : result unit)
    (t : list event) :
  batchDeleteBlogs GITHUB_CONFIG client slugs w = (r, w', t) ->
  (forall tok o rp msg tree ps rc,
     In (CreateCommit tok o rp msg tree ps rc) t ->
     exists items base td,
       In (CreateTree tok o rp items base (Ok td)) t
       /\ tree = tree_sha td)
  /\ (forall tok o rp ref new_sha ru,
        In (UpdateRef tok o rp ref new_sha ru) t ->
        exists msg tree ps cd rd,
          In (CreateCommit tok o rp msg tree ps (Ok cd)) t
          /\ new_sha = commit_sha cd
          /\ In (GetRef tok o rp ref (Ok rd)) t).
Proof.
  intros H.
  destruct slugs as [[| slug0 rest0] |];
    try (cbn in H; injection H as <- <- <-; split; intros; contradiction).
  apply batchDeleteBlogs_run in H; [| discriminate].
  remember (slug0 :: rest0) as slugs eqn:Hslugs. clear Hslugs.
  split.
  - intros tok o rp msg tree ps rc Hin.
    inversion H; subst; locate Hin;
      match goal with
      | Hq : CreateCommit _ _ _ _ _ _ _ = _ |- _ =>
          injection Hq as <- <- <- <- <- <- <-
      end;
      exists (mutations (combine slugs files)), (ref_sha rd), td;
      (split; [| reflexivity]);
      unfold opening, treeStage; repeat rewrite in_app_iff; cbn [In];
      auto 10.
  - intros tok o rp ref new_sha ru Hin.
    inversion H; subst; locate Hin;
      match goal with
      | Hq : UpdateRef _ _ _ _ _ _ = _ |- _ =>
          injection Hq as <- <- <- <- <- <-
      end;
      exists (message slugs), (tree_sha td), [ref_sha rd], cd, rd;
      (split; [| split; [reflexivity |]]);
      unfold opening, treeStage, commitStage;
      repeat rewrite in_app_iff; cbn [In]; auto 10.
Qed.

(** X4.  The credential is asked for once, and every call to the GitHub
    client carries the token that request answered, for the owner and the
    repository of the configuration. *)
Theorem one_credential_for_every_call
    (slugs : list string) (w w' : W) (r : result unit) (t : list event) :
  slugs <> [] ->
  batchDeleteBlogs GITHUB_CONFIG client (Some slugs) w = (r, w', t) ->
  length (filter is_getAuthToken t) = 1
  /\ forall ev,
       In ev t -> is_storage ev = true ->
       exists token,
         In (GetAuthToken (Ok token)) t
         /\ target_of ev
            = Some (token, OWNER GITHUB_CONFIG, REPO GITHUB_CONFIG).
Proof.
  intros Hne H. apply batchDeleteBlogs_run in H; [| exact Hne].
  inversion H; subst; (split; [sift_all; reflexivity |]);
    intros ev Hin Hst;
    unfold opening, treeStage, commitStage, updateStage, successToast in Hin;
    repeat rewrite in_app_iff in Hin; cbn [In] in Hin;
    decompose [or] Hin; clear Hin; try contradiction; subst;
    try discriminate Hst;
    try match goal with
        | Hr : In _ (resolution _ _ _) |- _ =>
            apply in_resolution in Hr;
            destruct Hr as (? & _ & [-> | ->]); [discriminate Hst |]
        end;
    exists token; (split; [cbn; auto | reflexivity]).
Qed.

(** X5.  No call is repeated: a run reads the branch head, creates a tree
    and updates the reference at most once each and lists at most once per
    slug; a run that succeeds makes exactly [length slugs + 5] calls that
    leave the page. *)
Theorem no_call_is_repeated
    (slugs : list string) (w w' : W) (r : result unit) (t : list event) :
  batchDeleteBlogs GITHUB_CONFIG client (Some slugs) w = (r, w', t) ->
  length (filter is_getRef t) <= 1
  /\ length (filter is_createTree t) <= 1
  /\ length (filter is_updateRef t) <= 1
  /\ length (filter is_listing t) <= length slugs
  /\ (r = Ok tt -> length (filter is_network t) = length slugs + 5).
Proof.
  intros H.
  destruct slugs as [| slug0 rest0].
  { cbn in H. injection H as <- <- <-. cbn.
    repeat split; try lia. discriminate. }
  apply batchDeleteBlogs_run in H; [| discriminate].
  remember (slug0 :: rest0) as slugs eqn:Hslugs. clear Hslugs.
  inversion H; subst;
    repeat match goal with
           | |- _ /\ _ => split
           | |- _ -> _ => let Hr := fresh in intros Hr; try discriminate Hr
           end;
    sift_all;
    repeat (progress (rewrite ?length_app, ?length_map, ?length_combine;
                      cbn [length]));
    lia.
Qed.

End Properties.

(** * The reference advance of the specification *)

(** C2.  When the expected old commit is not what the branch points to,
    [advance] answers with a conflict and returns the repository as it
    was: no branch pointer has moved, the commits in storage are the same
    (the new one among them, if it was there), and a new commit that was
    not reachable from the branch is still not reachable from it. *)
Theorem advance_is_conditional
    (s : Store.t) (branchName expectedOldCommit newCommit : string) :
  Store.head s branchName <> Some expectedOldCommit ->
  fst (Store.advance branchName expectedOldCommit newCommit s)
  = Store.Conflict
  /\ (forall b,
        Store.head
          (snd (Store.advance branchName expectedOldCommit newCommit s)) b
        = Store.head s b)
  /\ Store.commits
       (snd (Store.advance branchName expectedOldCommit newCommit s))
     = Store.commits s
  /\ (~ Store.reachable_from_branch s branchName newCommit ->
      ~ Store.reachable_from_branch
          (snd (Store.advance branchName expectedOldCommit newCommit s))
          branchName newCommit).
Proof.
  intros Hne. unfold Store.advance.
  destruct (Store.head s branchName) as [actualCurrent |] eqn:Hhead.
  - destruct (String.eqb_spec actualCurrent expectedOldCommit) as [-> | _];
      [now elim Hne |].
    cbn. auto.
  - cbn. auto.
Qed.

(** The other half of the condition: with the expected commit in place
    the pointer moves to the new commit. *)
Lemma head_assign (branchName c : string) (l : list (string * string)) :
  Store.lookup branchName (Store.assign branchName c l) = Some c.
Proof.
  induction l as [| [k v] l IH]; cbn.
  - now rewrite String.eqb_refl.
  - destruct (String.eqb_spec k branchName) as [-> | Hk]; cbn.
    + now rewrite String.eqb_refl.
    + destruct (String.eqb_spec k branchName); [contradiction | exact IH].
Qed.

Lemma advance_moves_from_expected
    (s : Store.t) (branchName expectedOldCommit newCommit : string) :
  Store.head s branchName = Some expectedOldCommit ->
  fst (Store.advance branchName expectedOldCommit newCommit s)
  = Store.Success
  /\ Store.head
       (snd (Store.advance branchName expectedOldCommit newCommit s))
       branchName
     = Some newCommit.
Proof.
  intros Hhead. unfold Store.advance. rewrite Hhead, String.eqb_refl.
  cbn. split; [reflexivity |]. unfold Store.head. cbn. apply head_assign.
Qed.

(** In the repository only [updateRef] writes the table of branch
    pointers. *)
Lemma store_only_updateRef_moves :
  only_updateRef_moves Store.client Store.refs.
Proof.
  unfold only_updateRef_moves. cbn.
  unfold Store.getAuthToken, Store.getRef, Store.listRepoFilesRecursive,
    Store.createTree, Store.createCommit.
  repeat split; intros;
    repeat match goal with
           | |- context [match ?x with _ => _ end] => destruct x
           | |- context [if ?x then _ else _] => destruct x
           end; reflexivity.
Qed.

(** * The claims on the repository *)

Ltac duplicate_at_head :=
  let H := fresh in
  let Hn := fresh in
  intros H; inversion H as [| ? ? Hn ?]; apply Hn; cbn; tauto.

(** C1, as stated, fails.  Deleting the same slug twice lists each of its
    paths twice; and so do two distinct slugs of which one lies under the
    other, since the image of [notes/2024] is found below
    [public/images/notes] as well. *)
Lemma mutation_set_with_duplicate_paths :
  (option_map (map path)
     (mutationSetOf (snd (Store.transaction ["post-a"; "post-a"]
                            Store.initial)))
   = Some ["public/images/post-a/img.png";
           "src/content/blog/post-a.md";
           "src/content/blog/post-a.mdx";
           "public/images/post-a/img.png";
           "src/content/blog/post-a.md";
           "src/content/blog/post-a.mdx"]
   /\ ~ NoDup ["public/images/post-a/img.png";
               "src/content/blog/post-a.md";
               "src/content/blog/post-a.mdx";
               "public/images/post-a/img.png";
               "src/content/blog/post-a.md";
               "src/content/blog/post-a.mdx"])
  /\ (option_map (map path)
        (mutationSetOf (snd (Store.transaction ["notes"; "notes/2024"]
                               Store.initial)))
      = Some ["public/images/notes/2024/chart.png";
              "src/content/blog/notes.md";
              "src/content/blog/notes.mdx";
              "public/images/notes/2024/chart.png";
              "src/content/blog/notes/2024.md";
              "src/content/blog/notes/2024.mdx"]
      /\ ~ NoDup ["public/images/notes/2024/chart.png";
                  "src/content/blog/notes.md";
                  "src/content/blog/notes.mdx";
                  "public/images/notes/2024/chart.png";
                  "src/content/blog/notes/2024.md";
                  "src/content/blog/notes/2024.mdx"]).
Proof.
  split; (split; [reflexivity | duplicate_at_head]).
Qed.

(** Deleting the two posts of the repository: five paths, all distinct. *)
Lemma mutation_set_witness :
  exists ms,
    mutationSetOf (snd (Store.transaction ["post-a"; "post-b"]
                          Store.initial)) = Some ms
    /\ map path ms
       = ["public/images/post-a/img.png";
          "src/content/blog/post-a.md";
          "src/content/blog/post-a.mdx";
          "src/content/blog/post-b.md";
          "src/content/blog/post-b.mdx"]
    /\ NoDup (map path ms).
Proof.
  pose (out := Store.transaction ["post-a"; "post-b"] Store.initial).
  destruct (mutationSetOf (snd out)) as [ms |] eqn:Hms;
    [| discriminate Hms].
  destruct (mutation_set_lists_every_artifact Store.t Store.config
              Store.client ["post-a"; "post-b"] Store.initial
              (snd (fst out)) (fst (fst out)) (snd out) ms eq_refl Hms)
    as (token & files & Hlen & Hlist & Hset & _ & Hnodup).
  exists ms. split; [exact Hms |].
  destruct files as [| f1 [| f2 [| f3 files]]]; try discriminate Hlen.
  cbn in Hlist. injection Hlist; intros; subst f1 f2 token.
  split; [rewrite Hset; reflexivity |].
  apply Hnodup.
  - repeat constructor; cbn; intuition discriminate.
  - repeat constructor; cbn; intuition discriminate.
  - cbn. intros p slug [<- | []] [<- | [<- | []]]; split; discriminate.
Defined.

(** The second of two racing transactions: its expected base is stale, the
    advance is refused and its commit stays off the branch. *)
Lemma advance_witness :
  Store.head Store.raced "heads/main" <> Some "commit-0"
  /\ Store.advance "heads/main" "commit-0" "commit-2" Store.raced
     = (Store.Conflict, Store.raced)
  /\ ~ Store.reachable_from_branch
         (snd (Store.advance "heads/main" "commit-0" "commit-2"
                 Store.raced))
         "heads/main" "commit-2".
Proof.
  assert (Hne : Store.head Store.raced "heads/main" <> Some "commit-0")
    by discriminate.
  split; [exact Hne |]. split; [reflexivity |].
  apply (advance_is_conditional Store.raced "heads/main" "commit-0"
           "commit-2" Hne).
  intros (h & Hh & Hr). injection Hh as <-.
  inversion Hr as [| c cm p d Hc Hp Hr']; subst.
  injection Hc as <-. destruct Hp as [<- | []].
  inversion Hr' as [| c cm p d Hc Hp Hr'']; subst.
  injection Hc as <-. destruct Hp.
Defined.

(** A repository that refuses writes: the tree creation is rejected and
    the branch pointers are as before. *)
Lemma construction_failure_witness :
  (exists ev,
     In ev (snd (Store.transaction ["post-b"] Store.read_only))
     /\ construction_rejected ev = true)
  /\ fst (fst (Store.transaction ["post-b"] Store.read_only))
     = Err (Error "permission denied")
  /\ (forall ev,
        In ev (snd (Store.transaction ["post-b"] Store.read_only)) ->
        is_updateRef ev = false)
  /\ Store.refs (snd (fst (Store.transaction ["post-b"] Store.read_only)))
     = Store.refs Store.read_only.
Proof.
  pose (out := Store.transaction ["post-b"] Store.read_only).
  assert (Hrej : exists ev, In ev (snd out)
                            /\ construction_rejected ev = true).
  { apply existsb_exists. reflexivity. }
  destruct (construction_failure_leaves_branch_untouched Store.t
              Store.config Store.client (Some ["post-b"]) Store.read_only
              (snd (fst out)) (fst (fst out)) (snd out) eq_refl Hrej)
    as (_ & Hno & Hptr).
  split; [exact Hrej |]. split; [reflexivity |]. split; [exact Hno |].
  apply (Hptr _ Store.refs store_only_updateRef_moves).
Defined.

(** C5, as stated, fails.  Deleting one post reads the branch head, then
    lists the images of the post, and only then creates the tree: a
    network operation lies between the read and the tree creation. *)
Lemma listing_between_read_and_tree :
  mutationSetOf (snd (Store.transaction ["post-a"] Store.initial)) <> None
  /\ between_read_and_tree
       (snd (Store.transaction ["post-a"] Store.initial))
     = [ListRepoFilesRecursive "token" "owner" "blog"
          "public/images/post-a" "main"
          (Ok ["public/images/post-a/img.png"])]
  /\ between_read_and_tree
       (snd (Store.transaction ["post-a"] Store.initial))
     <> [].
Proof.
  split; [discriminate |]. split; [reflexivity | discriminate].
Qed.

(** Deleting two posts: one branch read, then two listings before the
    tree is created. *)
Lemma branch_head_read_witness :
  mutationSetOf (snd (Store.transaction ["post-a"; "post-b"]
                        Store.initial)) <> None
  /\ filter is_getRef
       (snd (Store.transaction ["post-a"; "post-b"] Store.initial))
     = [GetRef "token" "owner" "blog" "heads/main"
          (Ok (mkRefData "commit-0"))]
  /\ length (between_read_and_tree
               (snd (Store.transaction ["post-a"; "post-b"]
                       Store.initial)))
     = 2.
Proof.
  pose (out := Store.transaction ["post-a"; "post-b"] Store.initial).
  assert (Hms : mutationSetOf (snd out) <> None) by discriminate.
  destruct (branch_head_read_once_before_listings Store.t Store.config
              Store.client ["post-a"; "post-b"] Store.initial
              (snd (fst out)) (fst (fst out)) (snd out) eq_refl Hms)
    as (token & rd & files & Hlen & Hread & Hbetween & _).
  split; [exact Hms |]. split; [reflexivity |].
  change (length (between_read_and_tree (snd out)) = 2).
  rewrite Hbetween, length_map, length_combine, Hlen. reflexivity.
Defined.

(** Deleting one post creates [commit-1] on top of [commit-0]. *)
Lemma one_commit_witness :
  fst (fst (Store.transaction ["post-a"] Store.initial)) = Ok tt
  /\ length (filter is_createCommit
               (snd (Store.transaction ["post-a"] Store.initial)))
     = 1
  /\ In (CreateCommit "token" "owner" "blog" "删除文章: post-a" "tree-1"
           ["commit-0"] (Ok (mkCommitData "commit-1")))
        (snd (Store.transaction ["post-a"] Store.initial)).
Proof.
  pose (out := Store.transaction ["post-a"] Store.initial).
  destruct (one_commit_whose_sole_parent_is_base Store.t Store.config
              Store.client ["post-a"] Store.initial
              (snd (fst out)) (fst (fst out)) (snd out) eq_refl)
    as (_ & Hone & _ & _).
  split; [reflexivity |]. split; [exact (Hone eq_refl) |].
  cbn. tauto.
Defined.

(** The tree and the commit of that run both start from [commit-0]. *)
Lemma tree_base_witness :
  In (CreateTree "token" "owner" "blog"
        [deletion "public/images/post-a/img.png";
         deletion "src/content/blog/post-a.md";
         deletion "src/content/blog/post-a.mdx"]
        "commit-0" (Ok (mkTreeData "tree-1")))
     (snd (Store.transaction ["post-a"] Store.initial))
  /\ In (CreateCommit "token" "owner" "blog" "删除文章: post-a" "tree-1"
           ["commit-0"] (Ok (mkCommitData "commit-1")))
        (snd (Store.transaction ["post-a"] Store.initial))
  /\ exists rd,
       filter is_getRef (snd (Store.transaction ["post-a"] Store.initial))
       = [GetRef "token" "owner" "blog" "heads/main" (Ok rd)]
       /\ "commit-0" = ref_sha rd.
Proof.
  pose (out := Store.transaction ["post-a"] Store.initial).
  assert (Htree : In (CreateTree "token" "owner" "blog"
                        [deletion "public/images/post-a/img.png";
                         deletion "src/content/blog/post-a.md";
                         deletion "src/content/blog/post-a.mdx"]
                        "commit-0" (Ok (mkTreeData "tree-1"))) (snd out))
    by (cbn; tauto).
  assert (Hcommit : In (CreateCommit "token" "owner" "blog"
                          "删除文章: post-a" "tree-1" ["commit-0"]
                          (Ok (mkCommitData "commit-1"))) (snd out))
    by (cbn; tauto).
  split; [exact Htree |]. split; [exact Hcommit |].
  exact (proj2
           (tree_base_is_commit_parent Store.t Store.config Store.client
              ["post-a"] Store.initial (snd (fst out)) (fst (fst out))
              (snd out) eq_refl _ _ _ _ _ _ _ _ _ _ _ _ _ Htree Hcommit)).
Defined.

(** The message for one post and for three, on the commits the two runs
    create. *)
Lemma commit_message_witness :
  message ["post-a"] = "删除文章: post-a"
  /\ 1 < length ["post-a"; "post-b"; "notes"]
  /\ message ["post-a"; "post-b"; "notes"] = "批量删除文章: 3 篇"
  /\ In (CreateCommit "token" "owner" "blog" "删除文章: post-a" "tree-1"
           ["commit-0"] (Ok (mkCommitData "commit-1")))
        (snd (Store.transaction ["post-a"] Store.initial))
  /\ In (CreateTree "token" "owner" "blog"
           (map deletion
              ["public/images/post-a/img.png";
               "src/content/blog/post-a.md";
               "src/content/blog/post-a.mdx";
               "src/content/blog/post-b.md";
               "src/content/blog/post-b.mdx";
               "public/images/notes/2024/chart.png";
               "src/content/blog/notes.md";
               "src/content/blog/notes.mdx"])
           "commit-0" (Ok (mkTreeData "tree-1")))
        (snd (Store.transaction ["post-a"; "post-b"; "notes"]
                Store.initial))
  /\ (exists rc,
        In (CreateCommit "token" "owner" "blog" "批量删除文章: 3 篇" "tree-1"
              ["commit-0"] rc)
           (snd (Store.transaction ["post-a"; "post-b"; "notes"]
                   Store.initial)))
  /\ (exists tok tree ps cd,
        In (CreateCommit tok "owner" "blog" "批量删除文章: 3 篇" tree ps
              (Ok cd))
           (snd (Store.transaction ["post-a"; "post-b"; "notes"]
                   Store.initial)))
  /\ forall tok o rp msg tree ps rc,
       In (CreateCommit tok o rp msg tree ps rc)
          (snd (Store.transaction ["post-a"; "post-b"; "notes"]
                  Store.initial)) ->
       msg = "批量删除文章: 3 篇".
Proof.
  destruct (commit_message_follows_count_policy Store.t Store.config
              Store.client) as (Hone & Hmany & Hcall & Hissued & Hdone).
  pose (out := Store.transaction ["post-a"; "post-b"; "notes"]
                 Store.initial).
  assert (Hlen : 1 < length ["post-a"; "post-b"; "notes"]) by (cbn; lia).
  assert (Htree : In (CreateTree "token" "owner" "blog"
                        (map deletion
                           ["public/images/post-a/img.png";
                            "src/content/blog/post-a.md";
                            "src/content/blog/post-a.mdx";
                            "src/content/blog/post-b.md";
                            "src/content/blog/post-b.mdx";
                            "public/images/notes/2024/chart.png";
                            "src/content/blog/notes.md";
                            "src/content/blog/notes.mdx"])
                        "commit-0" (Ok (mkTreeData "tree-1"))) (snd out))
    by (cbn; tauto).
  split; [exact (Hone "post-a") |]. split; [exact Hlen |].
  split; [exact (proj1 (Hmany _ Hlen)) |].
  split; [cbn; tauto |].
  split; [exact Htree |].
  split.
  { exact (Hissued ["post-a"; "post-b"; "notes"] Store.initial
             (snd (fst out)) (fst (fst out)) (snd out) _ _ _ _ _ _
             eq_refl Htree). }
  split.
  { exact (Hdone ["post-a"; "post-b"; "notes"] Store.initial
             (snd (fst out)) (snd out) eq_refl). }
  intros tok o rp msg tree ps rc Hin.
  exact (Hcall ["post-a"; "post-b"; "notes"] Store.initial _ _ _
           tok o rp msg tree ps rc eq_refl Hin).
Defined.

(** The notifications of a run that goes through, and of one that the
    repository refuses at the tree creation. *)
Lemma progress_witness :
  ["post-a"; "post-b"] <> []
  /\ toasts (snd (Store.transaction ["post-a"; "post-b"] Store.initial))
     = [ToastInfo "正在获取分支信息...";
        ToastInfo "正在处理: post-a...";
        ToastInfo "正在处理: post-b...";
        ToastInfo "正在创建文件树...";
        ToastInfo "正在创建提交...";
        ToastInfo "正在更新分支...";
        ToastSuccess "批量删除成功！请等待页面部署后刷新"]
  /\ (exists r0 t',
        snd (Store.transaction ["post-a"; "post-b"] Store.initial)
        = GetAuthToken r0 :: t'
        /\ announced t')
  /\ toasts (snd (Store.transaction ["post-a"; "post-b"] Store.read_only))
     = [ToastInfo "正在获取分支信息...";
        ToastInfo "正在处理: post-a...";
        ToastInfo "正在处理: post-b...";
        ToastInfo "正在创建文件树..."]
  /\ (exists pre call,
        snd (Store.transaction ["post-a"; "post-b"] Store.read_only)
        = pre ++ [call]
        /\ rejection call = Some (Error "permission denied")
        /\ length (toasts (snd (Store.transaction ["post-a"; "post-b"]
                                  Store.read_only)))
           = length (filter is_storage
                       (snd (Store.transaction ["post-a"; "post-b"]
                               Store.read_only))))
  /\ forall msg,
       ~ In (ToastSuccess msg)
            (snd (Store.transaction ["post-a"; "post-b"] Store.read_only)).
Proof.
  assert (Hne : ["post-a"; "post-b"] <> []) by discriminate.
  destruct (progress_notifications_in_order Store.t Store.config
              Store.client ["post-a"; "post-b"] Store.initial _ _ _ Hne
              eq_refl)
    as (Htoasts & _ & Hannounced & _).
  destruct (progress_notifications_in_order Store.t Store.config
              Store.client ["post-a"; "post-b"] Store.read_only _ _ _ Hne
              eq_refl)
    as ((_ & Hnone) & _ & _ & Hstop).
  split; [exact Hne |]. split; [exact Htoasts |].
  split; [exact Hannounced |]. split; [reflexivity |].
  split; [exact Hstop | exact Hnone].
Defined.

(** Signed out: the call ends at the credential request. *)
Lemma credential_failure_witness :
  ["post-a"] <> []
  /\ call_getAuthToken Store.client Store.signed_out
     = (Err (Error "no credential"), Store.signed_out)
  /\ Store.transaction ["post-a"] Store.signed_out
     = (Err (Error "no credential"), Store.signed_out,
        [GetAuthToken (Err (Error "no credential"))]).
Proof.
  assert (Hne : ["post-a"] <> []) by discriminate.
  split; [exact Hne |]. split; [reflexivity |].
  pose (out := Store.transaction ["post-a"] Store.signed_out).
  destruct (credential_failure_aborts_before_resolution Store.t
              Store.config Store.client ["post-a"] Store.signed_out
              (snd (fst out)) (fst (fst out)) (snd out) Hne eq_refl)
    as (t' & Ht & Hfail & _).
  destruct (Hfail (Error "no credential") eq_refl) as (Hr & Ht' & Hw).
  change (out = (Err (Error "no credential"), Store.signed_out,
                 [GetAuthToken (Err (Error "no credential"))])).
  rewrite (surjective_pairing out), (surjective_pairing (fst out)).
  rewrite Hr, Hw, Ht, Ht'. reflexivity.
Defined.

(** * The archive page: selecting *)

Lemma Set_has_In (x : string) (s : list string) :
  Archive.Set_has x s = true <-> In x s.
Proof.
  unfold Archive.Set_has. rewrite existsb_exists. split.
  - intros (y & Hin & Heq). apply String.eqb_eq in Heq. now subst.
  - intros Hin. exists x. split; [exact Hin | apply String.eqb_refl].
Qed.

Lemma Set_has_not_In (x : string) (s : list string) :
  Archive.Set_has x s = false <-> ~ In x s.
Proof.
  rewrite <- Set_has_In. destruct (Archive.Set_has x s); split; congruence.
Qed.

Lemma In_Set_delete (x y : string) (s : list string) :
  In y (Archive.Set_delete x s) <-> In y s /\ y <> x.
Proof.
  unfold Archive.Set_delete. rewrite filter_In.
  destruct (String.eqb_spec x y) as [-> | Hne]; cbn; split;
    intros [Hin Hy]; try discriminate; try contradiction; split; auto.
Qed.

Lemma In_Set_add (x y : string) (s : list string) :
  In y (Archive.Set_add x s) <-> In y s \/ y = x.
Proof.
  unfold Archive.Set_add. destruct (Archive.Set_has x s) eqn:Hhas.
  - apply Set_has_In in Hhas. split; [auto | intros [H | ->]; auto].
  - rewrite in_app_iff. cbn. intuition auto.
Qed.

Lemma NoDup_Set_delete (x : string) (s : list string) :
  NoDup s -> NoDup (Archive.Set_delete x s).
Proof. intros H. unfold Archive.Set_delete. now apply NoDup_filter. Qed.

Lemma NoDup_Set_add (x : string) (s : list string) :
  NoDup s -> NoDup (Archive.Set_add x s).
Proof.
  intros H. unfold Archive.Set_add.
  destruct (Archive.Set_has x s) eqn:Hhas; [exact H |].
  apply Set_has_not_In in Hhas.
  apply NoDup_app; [exact H | repeat constructor; intros [] |].
  intros a Ha [<- | []]. contradiction.
Qed.

Lemma Set_delete_absent (x : string) (s : list string) :
  ~ In x s -> Archive.Set_delete x s = s.
Proof.
  intros Hx. unfold Archive.Set_delete.
  induction s as [| y s IH]; [reflexivity |]. cbn.
  destruct (String.eqb_spec x y) as [-> | Hne]; cbn.
  - elim Hx. now left.
  - f_equal. apply IH. intros Hin. apply Hx. now right.
Qed.

Lemma Set_delete_app (x : string) (s s' : list string) :
  Archive.Set_delete x (s ++ s')
  = Archive.Set_delete x s ++ Archive.Set_delete x s'.
Proof. unfold Archive.Set_delete. apply filter_app. Qed.

Lemma length_Set_delete (x : string) (s : list string) :
  NoDup s -> In x s -> S (length (Archive.Set_delete x s)) = length s.
Proof.
  induction s as [| y s IH]; intros Hnd Hin; [contradiction |].
  inversion Hnd as [| ? ? Hy Hnd']; subst.
  unfold Archive.Set_delete. cbn.
  destruct (String.eqb_spec x y) as [-> | Hne]; cbn.
  - f_equal. fold (Archive.Set_delete y s). now rewrite Set_delete_absent.
  - f_equal. apply IH; [exact Hnd' |].
    destruct Hin as [-> | Hin]; [contradiction | exact Hin].
Qed.

Lemma selectedSlugs_toggleSelect (slug : string) (v : Archive.View) :
  Archive.selectedSlugs (Archive.toggleSelect slug v)
  = if Archive.Set_has slug (Archive.selectedSlugs v)
    then Archive.Set_delete slug (Archive.selectedSlugs v)
    else Archive.Set_add slug (Archive.selectedSlugs v).
Proof. reflexivity. Qed.

Lemma toggleSelect_flips_one_aux (slug : string) (v : Archive.View) :
  NoDup (Archive.selectedSlugs v) ->
  NoDup (Archive.selectedSlugs (Archive.toggleSelect slug v))
  /\ Archive.editMode (Archive.toggleSelect slug v) = Archive.editMode v.
Proof.
  intros Hnd. unfold Archive.toggleSelect. cbn. split; [| reflexivity].
  destruct (Archive.Set_has slug (Archive.selectedSlugs v));
    [now apply NoDup_Set_delete | now apply NoDup_Set_add].
Qed.

(** X6.  Toggling a slug flips the selection of that slug and of no
    other: the slug is selected afterwards exactly when it was not
    before, every other slug keeps its state, the number of selected
    slugs moves by one, and the selection stays free of duplicates; the
    rest of the state is not touched. *)
Theorem toggleSelect_flips_one (slug : string) (v : Archive.View) :
  NoDup (Archive.selectedSlugs v) ->
  NoDup (Archive.selectedSlugs (Archive.toggleSelect slug v))
  /\ (In slug (Archive.selectedSlugs (Archive.toggleSelect slug v))
      <-> ~ In slug (Archive.selectedSlugs v))
  /\ (forall other,
        other <> slug ->
        (In other (Archive.selectedSlugs (Archive.toggleSelect slug v))
         <-> In other (Archive.selectedSlugs v)))
  /\ (if Archive.Set_has slug (Archive.selectedSlugs v)
      then S (length (Archive.selectedSlugs (Archive.toggleSelect slug v)))
           = length (Archive.selectedSlugs v)
      else length (Archive.selectedSlugs (Archive.toggleSelect slug v))
           = S (length (Archive.selectedSlugs v)))
  /\ Archive.editMode (Archive.toggleSelect slug v) = Archive.editMode v
  /\ Archive.deleting (Archive.toggleSelect slug v) = Archive.deleting v
  /\ Archive.isAuth (Archive.toggleSelect slug v) = Archive.isAuth v.
Proof.
  intros Hnd. unfold Archive.toggleSelect. cbn.
  destruct (Archive.Set_has slug (Archive.selectedSlugs v)) eqn:Hhas.
  - pose proof (proj1 (Set_has_In _ _) Hhas) as Hin.
    split; [now apply NoDup_Set_delete |].
    split; [rewrite In_Set_delete; intuition auto |].
    split; [intros other Hne; rewrite In_Set_delete; intuition auto |].
    split; [now apply length_Set_delete | auto].
  - pose proof (proj1 (Set_has_not_In _ _) Hhas) as Hnot.
    split; [now apply NoDup_Set_add |].
    split; [rewrite In_Set_add; intuition auto |].
    split; [intros other Hne; rewrite In_Set_add; intuition auto |].
    split; [| auto].
    unfold Archive.Set_add. rewrite Hhas, length_app. cbn. lia.
Qed.

(** X7.  Toggling the same slug twice gives back the same selection: the
    same slugs are selected, and the list handed to the service is even
    the same list when the slug was not selected at first (a slug that was
    selected moves to the end). *)
Theorem toggleSelect_twice (slug : string) (v : Archive.View) :
  NoDup (Archive.selectedSlugs v) ->
  Permutation
    (Archive.selectedSlugs
       (Archive.toggleSelect slug (Archive.toggleSelect slug v)))
    (Archive.selectedSlugs v)
  /\ (~ In slug (Archive.selectedSlugs v) ->
      Archive.toggleSelect slug (Archive.toggleSelect slug v) = v)
  /\ (In slug (Archive.selectedSlugs v) ->
      Archive.selectedSlugs
        (Archive.toggleSelect slug (Archive.toggleSelect slug v))
      = Archive.Set_delete slug (Archive.selectedSlugs v) ++ [slug]).
Proof.
  intros Hnd.
  assert (Hin_case :
            In slug (Archive.selectedSlugs v) ->
            Archive.selectedSlugs
              (Archive.toggleSelect slug (Archive.toggleSelect slug v))
            = Archive.Set_delete slug (Archive.selectedSlugs v) ++ [slug]).
  { intros Hin. rewrite !selectedSlugs_toggleSelect.
    rewrite (proj2 (Set_has_In _ _) Hin).
    assert (Hgone : Archive.Set_has slug
                      (Archive.Set_delete slug (Archive.selectedSlugs v))
                    = false).
    { apply Set_has_not_In. rewrite In_Set_delete. intuition auto. }
    rewrite Hgone. unfold Archive.Set_add. now rewrite Hgone. }
  assert (Hout_case :
            ~ In slug (Archive.selectedSlugs v) ->
            Archive.toggleSelect slug (Archive.toggleSelect slug v) = v).
  { intros Hnot.
    assert (Hsel : Archive.selectedSlugs
                     (Archive.toggleSelect slug
                        (Archive.toggleSelect slug v))
                   = Archive.selectedSlugs v).
    { rewrite !selectedSlugs_toggleSelect.
      rewrite (proj2 (Set_has_not_In _ _) Hnot).
      unfold Archive.Set_add.
      rewrite (proj2 (Set_has_not_In _ _) Hnot).
      assert (Hback : Archive.Set_has slug
                        (Archive.selectedSlugs v ++ [slug]) = true).
      { apply Set_has_In. apply in_or_app. right. now left. }
      rewrite Hback.
      rewrite Set_delete_app, Set_delete_absent by exact Hnot.
      unfold Archive.Set_delete. cbn. rewrite String.eqb_refl. cbn.
      apply app_nil_r. }
    unfold Archive.toggleSelect at 1. unfold Archive.with_selectedSlugs.
    fold (Archive.toggleSelect slug v).
    change (Archive.mkView
              (Archive.isAuth v) (Archive.editMode v)
              (Archive.selectedSlugs
                 (Archive.toggleSelect slug (Archive.toggleSelect slug v)))
              (Archive.deleting v) (Archive.keyInputMounted v) = v).
    rewrite Hsel. destruct v; reflexivity. }
  split; [| split; assumption].
  destruct (in_dec string_dec slug (Archive.selectedSlugs v)) as [Hin | Hnot].
  - rewrite (Hin_case Hin).
    apply NoDup_Permutation.
    + apply NoDup_app; [now apply NoDup_Set_delete
                       | repeat constructor; intros [] |].
      intros a Ha [<- | []]. apply In_Set_delete in Ha. intuition auto.
    + exact Hnd.
    + intros x. rewrite in_app_iff, In_Set_delete. cbn.
      destruct (string_dec x slug) as [-> | Hne]; [tauto |].
      split; [intros [[Hx _] | [Heq | []]]; [exact Hx | congruence] | auto].
  - now rewrite (Hout_case Hnot).
Qed.

(** X8.  Whatever the user does with the edit-mode buttons, the cards
    and the checkboxes, the selection holds no slug twice, nothing is
    selected outside edit mode, and no deletion is marked as running. *)
Theorem selecting_keeps_selection_in_edit_mode (v : Archive.View) :
  Archive.Selecting v ->
  NoDup (Archive.selectedSlugs v)
  /\ (Archive.editMode v = false -> Archive.selectedSlugs v = [])
  /\ Archive.deleting v = false.
Proof.
  induction 1 as [auth mounted | v Hv IH | slug v Hv IH | slug v Hv IH Hedit].
  - cbn. split; [constructor | auto].
  - cbn. split; [constructor | auto]. destruct IH as (_ & _ & IH). auto.
  - destruct IH as (Hnd & Hout & Hdel).
    unfold Archive.onCardClick. destruct (Archive.editMode v) eqn:Hedit.
    + destruct (toggleSelect_flips_one_aux slug v Hnd) as (Hnd' & He).
      split; [exact Hnd' |]. cbn. split; [congruence | exact Hdel].
    + auto.
  - destruct IH as (Hnd & Hout & Hdel).
    destruct (toggleSelect_flips_one_aux slug v Hnd) as (Hnd' & He).
    split; [exact Hnd' |]. cbn. split; [congruence | exact Hdel].
Qed.

(** * The archive page: deleting *)

Section ArchiveHandlers.

Variable W : Type.
Variable File : Type.
Variable GITHUB_CONFIG : GithubConfig.
Variable client : Client W.
Variable browser : Archive.Browser W File.

(** [executeDelete], run: the two ways the [try] can end. *)
Lemma executeDelete_run (render v : Archive.View) (w : W) :
  Archive.executeDelete GITHUB_CONFIG client render v w
  = match batchDeleteBlogs GITHUB_CONFIG client
            (Some (Archive.selectedSlugs render)) w with
    | (Ok _, ws, ts) =>
        (Ok tt,
         Archive.with_deleting false
           (Archive.with_selectedSlugs []
              (Archive.with_editMode false
                 (Archive.with_deleting true v))),
         ws,
         Archive.SetDeleting true
           :: map (@Archive.Call File) ts
           ++ [Archive.SetEditMode false; Archive.SetSelectedSlugs [];
               Archive.SetDeleting false])
    | (Err e, ws, ts) =>
        (Ok tt,
         Archive.with_deleting false (Archive.with_deleting true v),
         ws,
         Archive.SetDeleting true
           :: map (@Archive.Call File) ts
           ++ [Archive.ConsoleError e;
               Archive.ToastError
                 (Archive.or_else (Archive.error_message e) "删除失败");
               Archive.SetDeleting false])
    end.
Proof.
  unfold Archive.executeDelete, Archive.try_finally, Archive.try_catch,
    Archive.ubind, Archive.service, Archive.setDeleting,
    Archive.setEditMode, Archive.setSelectedSlugs, Archive.console_error,
    Archive.toast_error, Archive.write, Archive.uemit, Archive.Array_from.
  destruct (batchDeleteBlogs GITHUB_CONFIG client
              (Some (Archive.selectedSlugs render)) w)
    as [[[[] | e] ws] ts]; cbn [app].
  - rewrite <- !app_assoc. reflexivity.
  - rewrite <- !app_assoc. reflexivity.
Qed.

Lemma existsb_map_Call (p : event -> bool) (q : Archive.ui_event File -> bool)
    (t : list event) :
  (forall ev, q (Archive.Call ev) = p ev) ->
  existsb q (map (@Archive.Call File) t) = existsb p t.
Proof.
  intros Hq. induction t as [| ev t IH]; [reflexivity |].
  cbn. now rewrite Hq, IH.
Qed.

(** X9.  [executeDelete] never rejects, whatever the service does, and
    the deletion is marked as running exactly while it runs:
    [setDeleting(true)] is the first entry of its log, [setDeleting(false)]
    the last, every call of the service lies between the two, and the
    state it leaves has [deleting] off. *)
Theorem executeDelete_settles
    (render v v' : Archive.View) (w w' : W) (r : result unit)
    (t : list (Archive.ui_event File)) :
  Archive.executeDelete GITHUB_CONFIG client render v w = (r, v', w', t) ->
  r = Ok tt
  /\ Archive.deleting v' = false
  /\ Archive.isAuth v' = Archive.isAuth v
  /\ exists ts mid,
       batchDeleteBlogs GITHUB_CONFIG client
         (Some (Archive.selectedSlugs render)) w
       = (fst (fst (batchDeleteBlogs GITHUB_CONFIG client
                      (Some (Archive.selectedSlugs render)) w)), w', ts)
       /\ t = Archive.SetDeleting true
                :: map (@Archive.Call File) ts ++ mid
                ++ [Archive.SetDeleting false]
       /\ existsb Archive.is_call mid = false.
Proof.
  rewrite executeDelete_run.
  destruct (batchDeleteBlogs GITHUB_CONFIG client
              (Some (Archive.selectedSlugs render)) w)
    as [[[[] | e] ws] ts] eqn:Hs; intros [= <- <- <- <-];
    (split; [reflexivity |]); (split; [reflexivity |]);
    (split; [reflexivity |]); exists ts.
  - exists [Archive.SetEditMode false; Archive.SetSelectedSlugs []].
    cbn [fst]. repeat split.
  - exists [Archive.ConsoleError e;
            Archive.ToastError
              (Archive.or_else (Archive.error_message e) "删除失败")].
    cbn [fst]. repeat split.
Qed.

(** X10.  [executeDelete] resets the page only when the deletion went
    through.  When the service succeeds, edit mode is left, the selection
    is emptied and no error is shown; when it fails, edit mode and the
    selection are kept as they were, so the user can retry, and exactly one
    error notification is shown: the message of the error, or the default
    text when the error has no message. *)
Theorem executeDelete_resets_only_on_success
    (render v v' : Archive.View) (w w' ws : W) (r rs : result unit)
    (t : list (Archive.ui_event File)) (ts : list event) :
  batchDeleteBlogs GITHUB_CONFIG client
    (Some (Archive.selectedSlugs render)) w = (rs, ws, ts) ->
  Archive.executeDelete GITHUB_CONFIG client render v w = (r, v', w', t) ->
  w' = ws
  /\ match rs with
     | Ok _ =>
         Archive.editMode v' = false
         /\ Archive.selectedSlugs v' = []
         /\ filter Archive.is_error_toast t = []
     | Err e =>
         Archive.editMode v' = Archive.editMode v
         /\ Archive.selectedSlugs v' = Archive.selectedSlugs v
         /\ filter Archive.is_error_toast t
            = [Archive.ToastError
                 (Archive.or_else (Archive.error_message e) "删除失败")]
         /\ ~ In (Archive.Call successToast) t
     end.
Proof.
  intros Hs. rewrite executeDelete_run, Hs.
  assert (Hnone : forall l : list event,
            filter Archive.is_error_toast (map (@Archive.Call File) l) = []).
  { induction l as [| ev l IH]; [reflexivity | exact IH]. }
  destruct rs as [[] | e]; intros [= <- <- <- <-];
    (split; [reflexivity |]); cbn [filter Archive.is_error_toast];
    rewrite filter_app, Hnone; cbn.
  - auto.
  - repeat split. intros [Habs | Hin]; [discriminate Habs |].
    apply in_app_iff in Hin. destruct Hin as [Hin | Hin].
    + apply in_map_iff in Hin. destruct Hin as (ev & [= ->] & Hin).
      destruct (Archive.selectedSlugs render) as [| slug0 rest0] eqn:Hsel.
      * cbn in Hs. injection Hs as _ _ <-. contradiction.
      * apply batchDeleteBlogs_run in Hs; [| discriminate].
        inversion Hs; subst;
          unfold opening, treeStage, commitStage, updateStage,
            successToast in Hin;
          repeat rewrite in_app_iff in Hin; cbn [In] in Hin;
          decompose [or] Hin; clear Hin; try contradiction;
          try discriminate;
          match goal with
          | Hr : In _ (resolution _ _ _) |- _ =>
              apply in_resolution in Hr;
              destruct Hr as (? & _ & [Hr | Hr]); discriminate Hr
          end.
    + cbn in Hin. decompose [or] Hin; try contradiction; discriminate.
Qed.

(** X11.  With nothing selected, [executeDelete] calls nobody: the guard
    of the service rejects the empty list, its message is shown as the
    error notification, and the world and the rest of the state are as
    before. *)
Theorem executeDelete_with_nothing_selected
    (render v : Archive.View) (w : W) :
  Archive.selectedSlugs render = [] ->
  Archive.executeDelete (File := File) GITHUB_CONFIG client render v w
  = (Ok tt,
     Archive.with_deleting false v,
     w,
     [Archive.SetDeleting true;
      Archive.ConsoleError (Error "需要 slugs");
      Archive.ToastError "需要 slugs";
      Archive.SetDeleting false]).
Proof.
  intros Hsel. rewrite executeDelete_run, Hsel. reflexivity.
Qed.

(** X12.  [handleBatchDelete] never rejects, and it lets the service run
    only for a selection that is not empty, after the user has confirmed
    the dialog that names the number of selected posts, and only when the
    user is signed in; then the log starts with that dialog.  With an
    empty selection it does nothing at all. *)
Theorem handleBatchDelete_asks_first
    (render v v' : Archive.View) (w w' : W) (r : result unit)
    (t : list (Archive.ui_event File)) :
  Archive.handleBatchDelete GITHUB_CONFIG client browser render v w
  = (r, v', w', t) ->
  r = Ok tt
  /\ (Archive.selectedSlugs render = [] -> t = [] /\ v' = v /\ w' = w)
  /\ (existsb Archive.is_call t = true ->
      exists rest,
        t = Archive.Confirm
              ("确定要删除选中的 "
                 ++ number_to_string (length (Archive.selectedSlugs render))
                 ++ " 篇文章吗？此操作不可恢复。")%string
              true :: rest)
  /\ (existsb Archive.is_client_call t = true ->
      Archive.selectedSlugs render <> []
      /\ Archive.isAuth render = true)
  /\ length (filter Archive.is_confirm t) <= 1.
Proof.
  unfold Archive.handleBatchDelete.
  destruct (Archive.selectedSlugs render) as [| slug0 rest0] eqn:Hsel.
  { cbn. intros [= <- <- <- <-]. cbn.
    repeat split; try discriminate; lia. }
  cbn [length Nat.eqb].
  unfold Archive.ubind at 1. unfold Archive.confirm.
  destruct (Archive.call_confirm browser _ w) as [[] w1] eqn:Hc;
    cbn [negb].
  2:{ cbn. intros [= <- <- <- <-]. cbn.
      repeat split; try discriminate; lia. }
  destruct (Archive.isAuth render) eqn:Hauth; cbn [negb].
  - rewrite executeDelete_run.
    assert (Hcf : forall l : list event,
              filter Archive.is_confirm (map (@Archive.Call File) l) = []).
    { induction l as [| ev l IH]; [reflexivity | exact IH]. }
    destruct (batchDeleteBlogs GITHUB_CONFIG client
                (Some (Archive.selectedSlugs render)) w1)
      as [[[[] | e] ws] ts]; intros [= <- <- <- <-];
      (split; [reflexivity |]); (split; [discriminate |]);
      (split; [intros _; eexists; reflexivity |]);
      (split; [intros _; split; [discriminate | reflexivity] |]);
      cbn [app filter Archive.is_confirm];
      rewrite filter_app, Hcf; cbn; lia.
  - unfold Archive.ubind, Archive.service, Archive.keyInput_click,
      toast_info, emit.
    destruct (Archive.keyInputMounted render); cbn;
      intros [= <- <- <- <-]; cbn;
      (split; [reflexivity |]); (split; [discriminate |]);
      (split; [intros _; eexists; reflexivity |]);
      (split; [discriminate | lia]).
Qed.

(** X13.  When the user declines the dialog, or is not signed in,
    nothing is deleted: no call leaves the page for the GitHub client or
    the credential provider, and the state of the component and its
    selection are unchanged.  A user who confirmed but is not signed in is
    asked for the key instead: the hint is shown and the file input is
    opened. *)
Theorem handleBatchDelete_without_consent_or_key
    (render v v' : Archive.View) (w w' : W) (r : result unit)
    (t : list (Archive.ui_event File)) :
  Archive.handleBatchDelete GITHUB_CONFIG client browser render v w
  = (r, v', w', t) ->
  (In (Archive.Confirm
         ("确定要删除选中的 "
            ++ number_to_string (length (Archive.selectedSlugs render))
            ++ " 篇文章吗？此操作不可恢复。")%string false) t
   \/ Archive.isAuth render = false) ->
  v' = v
  /\ existsb Archive.is_client_call t = false
  /\ (Archive.isAuth render = false ->
      Archive.keyInputMounted render = true ->
      forall msg, In (Archive.Confirm msg true) t ->
      t = [Archive.Confirm msg true;
           Archive.Call (ToastInfo "请导入私钥以继续删除操作");
           Archive.KeyInputClick]).
Proof.
  unfold Archive.handleBatchDelete.
  destruct (Archive.selectedSlugs render) as [| slug0 rest0] eqn:Hsel.
  { cbn. intros [= <- <- <- <-] _. cbn.
    repeat split. intros _ _ msg []. }
  cbn [length Nat.eqb].
  unfold Archive.ubind at 1. unfold Archive.confirm.
  destruct (Archive.call_confirm browser _ w) as [[] w1] eqn:Hc;
    cbn [negb].
  2:{ cbn. intros [= <- <- <- <-] _. cbn. repeat split.
      intros _ _ msg [[=] | []]. }
  destruct (Archive.isAuth render) eqn:Hauth; cbn [negb].
  - rewrite executeDelete_run.
    destruct (batchDeleteBlogs GITHUB_CONFIG client
                (Some (Archive.selectedSlugs render)) w1)
      as [[[[] | e] ws] ts]; intros [= <- <- <- <-] [Hin | Habs];
      try discriminate Habs; exfalso;
      cbn [app In] in Hin; destruct Hin as [Hin | [Hin | Hin]];
      try discriminate Hin;
      apply in_app_iff in Hin; destruct Hin as [Hin | Hin];
      try (apply in_map_iff in Hin; destruct Hin as (? & Hin & _);
           discriminate Hin);
      cbn in Hin; decompose [or] Hin; try contradiction; discriminate.
  - unfold Archive.ubind, Archive.service, Archive.keyInput_click,
      toast_info, emit.
    destruct (Archive.keyInputMounted render); cbn;
      intros [= <- <- <- <-] _; cbn; repeat split;
      try discriminate.
    intros _ _ msg [[= <-] | [[=] | [[=] | []]]]. reflexivity.
Qed.

Lemma handlePrivateKeySelection_run (render v : Archive.View) (file : File)
    (w : W) :
  Archive.handlePrivateKeySelection GITHUB_CONFIG client browser render
    file v w
  = match Archive.call_readFileAsText browser file w with
    | (Err e, w1) =>
        (Ok tt, v, w1,
         [Archive.ReadFileAsText file (Err e); Archive.ConsoleError e;
          Archive.ToastError "读取密钥失败"])
    | (Ok pem, w1) =>
        match Archive.call_setPrivateKey browser pem w1 with
        | (Err e, w2) =>
            (Ok tt, v, w2,
             [Archive.ReadFileAsText file (Ok pem);
              Archive.SetPrivateKey pem (Err e); Archive.ConsoleError e;
              Archive.ToastError "读取密钥失败"])
        | (Ok u, w2) =>
            match Archive.executeDelete GITHUB_CONFIG client render v w2
            with
            | (r, v', w', t) =>
                (Ok tt, v', w',
                 Archive.ReadFileAsText file (Ok pem)
                   :: Archive.SetPrivateKey pem (Ok u)
                   :: Archive.Call
                        (ToastSuccess "密钥导入成功，正在继续删除...")
                   :: t)
            end
        end
    end.
Proof.
  unfold Archive.handlePrivateKeySelection, Archive.try_catch,
    Archive.ubind, Archive.readFileAsText, Archive.setPrivateKey,
    Archive.service, Archive.console_error, Archive.toast_error,
    Archive.uemit, toast_success, emit.
  destruct (Archive.call_readFileAsText browser file w)
    as [[pem | e] w1]; [| reflexivity].
  destruct (Archive.call_setPrivateKey browser pem w1)
    as [[u | e] w2]; [| reflexivity].
  cbn [map app].
  pose proof (executeDelete_run render v w2) as Hrun.
  destruct (Archive.executeDelete GITHUB_CONFIG client render v w2)
    as [[[r v'] w'] t].
  destruct (batchDeleteBlogs GITHUB_CONFIG client
              (Some (Archive.selectedSlugs render)) w2)
    as [[[[] | e] ws] ts]; injection Hrun as -> _ _ _; reflexivity.
Qed.

(** X14.  [handlePrivateKeySelection] never rejects, and when the key
    could not be imported (the file could not be read, or the store
    refused the key) no deletion is attempted: the state is unchanged,
    no call is made to the service, and the log ends with the
    notification that reading the key failed. *)
Theorem key_import_failure_deletes_nothing
    (render v v' : Archive.View) (file : File) (w w' : W)
    (r : result unit) (t : list (Archive.ui_event File)) :
  Archive.handlePrivateKeySelection GITHUB_CONFIG client browser render
    file v w = (r, v', w', t) ->
  r = Ok tt
  /\ ((forall pem, ~ In (Archive.SetPrivateKey pem (Ok tt)) t) ->
      v' = v
      /\ existsb Archive.is_call t = false
      /\ exists pre e,
           t = pre ++ [Archive.ConsoleError e;
                       Archive.ToastError "读取密钥失败"]).
Proof.
  rewrite handlePrivateKeySelection_run.
  destruct (Archive.call_readFileAsText browser file w)
    as [[pem | e] w1].
  - destruct (Archive.call_setPrivateKey browser pem w1)
      as [[[] | e] w2].
    + destruct (Archive.executeDelete GITHUB_CONFIG client render v w2)
        as [[[r0 v0] w0] t0].
      intros [= <- <- <- <-]. split; [reflexivity |].
      intros Hno. elim (Hno pem). cbn. auto.
    + intros [= <- <- <- <-]. split; [reflexivity |]. intros _.
      repeat split.
      exists [Archive.ReadFileAsText file (Ok pem);
              Archive.SetPrivateKey pem (Err e)], e. reflexivity.
  - intros [= <- <- <- <-]. split; [reflexivity |]. intros _.
    repeat split.
    exists [Archive.ReadFileAsText file (Err e)], e. reflexivity.
Qed.

(** X15.  In [handlePrivateKeySelection] the deletion starts only after
    the key is stored: a log that holds any call of the service starts
    with the file being read, its text being handed to [setPrivateKey]
    and the notification of the import, and what follows is the log of
    [executeDelete] run in the world the import left; the state the
    handler leaves is the one [executeDelete] leaves. *)
Theorem key_is_stored_before_deletion
    (render v v' : Archive.View) (file : File) (w w' : W)
    (r : result unit) (t : list (Archive.ui_event File)) :
  Archive.handlePrivateKeySelection GITHUB_CONFIG client browser render
    file v w = (r, v', w', t) ->
  existsb Archive.is_call t = true ->
  exists pem w1 w2 rest,
    Archive.call_readFileAsText browser file w = (Ok pem, w1)
    /\ Archive.call_setPrivateKey browser pem w1 = (Ok tt, w2)
    /\ Archive.executeDelete GITHUB_CONFIG client render v w2
       = (Ok tt, v', w', rest)
    /\ t = Archive.ReadFileAsText file (Ok pem)
             :: Archive.SetPrivateKey pem (Ok tt)
             :: Archive.Call (ToastSuccess "密钥导入成功，正在继续删除...")
             :: rest.
Proof.
  rewrite handlePrivateKeySelection_run.
  destruct (Archive.call_readFileAsText browser file w)
    as [[pem | e] w1] eqn:Hread; [| intros [= <- <- <- <-]; discriminate].
  destruct (Archive.call_setPrivateKey browser pem w1)
    as [[[] | e] w2] eqn:Hset; [| intros [= <- <- <- <-]; discriminate].
  destruct (Archive.executeDelete GITHUB_CONFIG client render v w2)
    as [[[r0 v0] w0] t0] eqn:Hdel.
  intros [= <- <- <- <-] _.
  assert (Hr0 : r0 = Ok tt).
  { rewrite executeDelete_run in Hdel.
    destruct (batchDeleteBlogs GITHUB_CONFIG client
                (Some (Archive.selectedSlugs render)) w2)
      as [[[[] | e] ws] ts]; now injection Hdel as <- _ _ _. }
  subst r0.
  exists pem, w1, w2, t0.
  split; [reflexivity |]. split; [exact Hset |].
  split; [exact Hdel | reflexivity].
Qed.

End ArchiveHandlers.

(** * The archive page: grouping *)

Lemma Map_get_set_eq (V : Type) (k : string) (v : V)
    (m : list (string * V)) :
  Archive.Map_get k (Archive.Map_set k v m) = Some v.
Proof.
  induction m as [| [k' v'] m IH]; cbn.
  - now rewrite String.eqb_refl.
  - destruct (String.eqb_spec k' k) as [-> | Hne]; cbn.
    + now rewrite String.eqb_refl.
    + destruct (String.eqb_spec k' k); [contradiction | exact IH].
Qed.

Lemma Map_get_set_neq (V : Type) (k k' : string) (v : V)
    (m : list (string * V)) :
  k' <> k ->
  Archive.Map_get k' (Archive.Map_set k v m) = Archive.Map_get k' m.
Proof.
  intros Hne. induction m as [| [k0 v0] m IH]; cbn.
  - destruct (String.eqb_spec k k'); [congruence | reflexivity].
  - destruct (String.eqb_spec k0 k) as [-> | Hk]; cbn.
    + destruct (String.eqb_spec k k'); [congruence | reflexivity].
    + destruct (String.eqb_spec k0 k'); [reflexivity | exact IH].
Qed.

Lemma Map_set_set (V : Type) (k : string) (v v0 : V)
    (m : list (string * V)) :
  Archive.Map_set k v (Archive.Map_set k v0 m) = Archive.Map_set k v m.
Proof.
  induction m as [| [k' v'] m IH]; cbn.
  - now rewrite String.eqb_refl.
  - destruct (String.eqb_spec k' k) as [-> | Hne]; cbn.
    + now rewrite String.eqb_refl.
    + destruct (String.eqb_spec k' k); [contradiction | now rewrite IH].
Qed.

Lemma Map_has_set (V : Type) (k k' : string) (v : V)
    (m : list (string * V)) :
  Archive.Map_has k' (Archive.Map_set k v m)
  = Archive.Map_has k' m || (k =? k')%string.
Proof.
  unfold Archive.Map_has.
  destruct (String.eqb_spec k k') as [<- | Hne].
  - rewrite Map_get_set_eq. now rewrite orb_true_r.
  - rewrite Map_get_set_neq by congruence. now rewrite orb_false_r.
Qed.

Lemma keys_Map_set (V : Type) (k : string) (v : V)
    (m : list (string * V)) :
  map fst (Archive.Map_set k v m)
  = if Archive.Map_has k m then map fst m else map fst m ++ [k].
Proof.
  unfold Archive.Map_has.
  induction m as [| [k' v'] m IH]; cbn; [reflexivity |].
  destruct (String.eqb_spec k' k) as [-> | Hne]; cbn; [reflexivity |].
  rewrite IH. now destruct (Archive.Map_get k m).
Qed.

Lemma Map_get_None_keys (V : Type) (k : string) (m : list (string * V)) :
  Archive.Map_get k m = None -> ~ In k (map fst m).
Proof.
  induction m as [| [k' v'] m IH]; cbn; [auto |].
  destruct (String.eqb_spec k' k) as [-> | Hne]; [discriminate |].
  intros Hg [Heq | Hin]; [contradiction | now apply IH].
Qed.

Lemma NoDup_keys_Map_set (V : Type) (k : string) (v : V)
    (m : list (string * V)) :
  NoDup (map fst m) -> NoDup (map fst (Archive.Map_set k v m)).
Proof.
  intros Hnd. rewrite keys_Map_set. unfold Archive.Map_has.
  destruct (Archive.Map_get k m) eqn:Hg; [exact Hnd |].
  apply NoDup_app; [exact Hnd | repeat constructor; intros [] |].
  intros a Ha [<- | []]. now apply (Map_get_None_keys _ _ _ Hg).
Qed.

Lemma Map_get_In (V : Type) (k : string) (v : V) (m : list (string * V)) :
  NoDup (map fst m) -> In (k, v) m -> Archive.Map_get k m = Some v.
Proof.
  induction m as [| [k' v'] m IH]; cbn; intros Hnd Hin; [contradiction |].
  inversion Hnd as [| ? ? Hk Hnd']; subst.
  destruct Hin as [[= -> ->] | Hin].
  - now rewrite String.eqb_refl.
  - destruct (String.eqb_spec k' k) as [-> | Hne]; [| now apply IH].
    elim Hk. apply in_map_iff. now exists (k, v).
Qed.

(** Replacing the value of a key moves a sum over the values by the
    difference of the two values. *)
Lemma sum_Map_set (V : Type) (f : V -> nat) (k : string) (v : V)
    (m : list (string * V)) :
  list_sum (map (fun kv => f (snd kv)) (Archive.Map_set k v m))
  + match Archive.Map_get k m with
    | Some v0 => f v0
    | None => 0
    end
  = list_sum (map (fun kv => f (snd kv)) m) + f v.
Proof.
  unfold list_sum. induction m as [| [k' v'] m IH]; cbn; [lia |].
  destruct (String.eqb_spec k' k) as [-> | Hne]; cbn; lia.
Qed.

Section GroupingFacts.

Variable Date : Type.
Variable format : Date -> string -> string.

Local Abbreviation yearGroupOf year groups :=
  (match Archive.Map_get year groups with
   | Some yearGroup => yearGroup
   | None => @nil (string * list (Archive.Post Date))
   end).

(** One round of the [forEach], in one step: the array of the month of
    the post gets the post at its end. *)
Lemma addPost_step (groups : list (string * list (string * list (Archive.Post Date))))
    (post : Archive.Post Date) :
  Archive.addPost format groups post
  = Archive.Map_set (Archive.yearOf format post)
      (Archive.Map_set (Archive.monthOf format post)
         (Archive.monthPostsOf (Archive.yearOf format post)
            (Archive.monthOf format post) groups ++ [post])
         (yearGroupOf (Archive.yearOf format post) groups))
      groups.
Proof.
  unfold Archive.addPost, Archive.monthPostsOf.
  set (year := Archive.yearOf format post).
  set (month := Archive.monthOf format post).
  destruct (Archive.Map_get year groups) as [yearGroup |] eqn:Hy.
  - assert (Hhas : Archive.Map_has year groups = true)
      by (unfold Archive.Map_has; now rewrite Hy).
    rewrite Hhas. cbn [negb]. rewrite Hy.
    destruct (Archive.Map_get month yearGroup) as [monthPosts |] eqn:Hm.
    + assert (Hhasm : Archive.Map_has month yearGroup = true)
        by (unfold Archive.Map_has; now rewrite Hm).
      rewrite Hhasm. cbn [negb]. now rewrite Hm.
    + assert (Hhasm : Archive.Map_has month yearGroup = false)
        by (unfold Archive.Map_has; now rewrite Hm).
      rewrite Hhasm. cbn [negb].
      now rewrite Map_get_set_eq, Map_set_set.
  - assert (Hhas : Archive.Map_has year groups = false)
      by (unfold Archive.Map_has; now rewrite Hy).
    rewrite Hhas. cbn [negb]. rewrite Map_get_set_eq.
    cbn [Archive.Map_has Archive.Map_get negb Archive.Map_set].
    rewrite String.eqb_refl. now rewrite Map_set_set.
Qed.

Lemma addPost_monthPostsOf
    (groups : list (string * list (string * list (Archive.Post Date))))
    (post : Archive.Post Date) (year month : string) :
  Archive.monthPostsOf year month (Archive.addPost format groups post)
  = Archive.monthPostsOf year month groups
      ++ (if ((Archive.yearOf format post =? year)
              && (Archive.monthOf format post =? month))%string
          then [post] else []).
Proof.
  rewrite addPost_step. unfold Archive.monthPostsOf at 1.
  destruct (String.eqb_spec (Archive.yearOf format post) year) as [<- | Hy].
  - rewrite Map_get_set_eq.
    destruct (String.eqb_spec (Archive.monthOf format post) month)
      as [<- | Hm]; cbn [andb].
    + now rewrite Map_get_set_eq.
    + rewrite Map_get_set_neq by congruence. rewrite app_nil_r.
      unfold Archive.monthPostsOf.
      now destruct (Archive.Map_get (Archive.yearOf format post) groups).
  - rewrite Map_get_set_neq by congruence. cbn [andb].
    now rewrite app_nil_r.
Qed.

Lemma groupedPosts_snoc (posts : list (Archive.Post Date))
    (post : Archive.Post Date) :
  Archive.groupedPosts format (posts ++ [post])
  = Archive.addPost format (Archive.groupedPosts format posts) post.
Proof. unfold Archive.groupedPosts. now rewrite fold_left_app. Qed.

(** X16.  Grouping loses and reorders nothing: under a year and a month
    the page shows exactly the posts of that year and month, in the order
    they have in [posts]. *)
Theorem groupedPosts_files_each_post_under_its_month
    (posts : list (Archive.Post Date)) (year month : string) :
  Archive.monthPostsOf year month (Archive.groupedPosts format posts)
  = filter (fun post =>
              ((Archive.yearOf format post =? year)
               && (Archive.monthOf format post =? month))%string)
      posts.
Proof.
  induction posts as [| post posts IH] using rev_ind; [reflexivity |].
  rewrite groupedPosts_snoc, addPost_monthPostsOf, IH, filter_app.
  cbn [filter]. reflexivity.
Qed.

Lemma addPost_shownPosts
    (groups : list (string * list (string * list (Archive.Post Date))))
    (post : Archive.Post Date) :
  Archive.shownPosts (Archive.addPost format groups post)
  = S (Archive.shownPosts groups).
Proof.
  rewrite addPost_step. unfold Archive.shownPosts.
  set (year := Archive.yearOf format post).
  set (month := Archive.monthOf format post).
  pose proof (sum_Map_set _
                (fun yg : list (string * list (Archive.Post Date)) =>
                   list_sum (map (fun mp => length (snd mp)) yg))
                year
                (Archive.Map_set month
                   (Archive.monthPostsOf year month groups ++ [post])
                   (yearGroupOf year groups))
                groups) as Houter.
  pose proof (sum_Map_set _
                (fun ps : list (Archive.Post Date) => length ps)
                month
                (Archive.monthPostsOf year month groups ++ [post])
                (yearGroupOf year groups)) as Hinner.
  cbn beta in Houter, Hinner. rewrite length_app in Hinner.
  cbn [length] in Hinner.
  unfold Archive.monthPostsOf in *.
  destruct (Archive.Map_get year groups) as [yearGroup |];
    [destruct (Archive.Map_get month yearGroup) as [monthPosts |] |];
    cbn [map list_sum fold_right length Archive.Map_get] in *; lia.
Qed.

Lemma addPost_has_year
    (groups : list (string * list (string * list (Archive.Post Date))))
    (post : Archive.Post Date) (year : string) :
  Archive.Map_has year (Archive.addPost format groups post)
  = Archive.Map_has year groups
    || (Archive.yearOf format post =? year)%string.
Proof. rewrite addPost_step. apply Map_has_set. Qed.

Lemma groupedPosts_has_year (posts : list (Archive.Post Date))
    (year : string) :
  Archive.Map_has year (Archive.groupedPosts format posts)
  = existsb (fun post => (Archive.yearOf format post =? year)%string) posts.
Proof.
  induction posts as [| post posts IH] using rev_ind; [reflexivity |].
  rewrite groupedPosts_snoc, addPost_has_year, IH, existsb_app. cbn.
  now rewrite orb_false_r.
Qed.

(** What the loop keeps true of the groups: keys are unique on both
    levels, no year is without a month and no month without a post. *)
Lemma groupedPosts_keys (posts : list (Archive.Post Date)) :
  NoDup (map fst (Archive.groupedPosts format posts))
  /\ forall year yearGroup,
       Archive.Map_get year (Archive.groupedPosts format posts)
       = Some yearGroup ->
       NoDup (map fst yearGroup)
       /\ yearGroup <> []
       /\ forall month monthPosts,
            Archive.Map_get month yearGroup = Some monthPosts ->
            monthPosts <> [].
Proof.
  induction posts as [| post posts IH] using rev_ind.
  - split; [constructor |]. intros year yearGroup [=].
  - destruct IH as [Hkeys Hinner].
    rewrite groupedPosts_snoc, addPost_step.
    set (groups := Archive.groupedPosts format posts) in *.
    split; [now apply NoDup_keys_Map_set |].
    intros year yearGroup.
    destruct (String.eqb_spec (Archive.yearOf format post) year)
      as [<- | Hy].
    + rewrite Map_get_set_eq. intros [= <-].
      assert (Hold : NoDup (map fst (yearGroupOf
                                       (Archive.yearOf format post) groups))
                     /\ forall month monthPosts,
                          Archive.Map_get month
                            (yearGroupOf (Archive.yearOf format post)
                               groups) = Some monthPosts ->
                          monthPosts <> []).
      { destruct (Archive.Map_get (Archive.yearOf format post) groups)
          as [yg |] eqn:Hg.
        - destruct (Hinner _ _ Hg) as (Hnd & _ & Hm). auto.
        - split; [constructor |]. intros month monthPosts [=]. }
      destruct Hold as [Hnd Hm].
      split; [now apply NoDup_keys_Map_set |]. split.
      * intros Hnil.
        pose proof (Map_get_set_eq _ (Archive.monthOf format post)
                      (Archive.monthPostsOf (Archive.yearOf format post)
                         (Archive.monthOf format post) groups ++ [post])
                      (yearGroupOf (Archive.yearOf format post) groups))
          as Hget.
        rewrite Hnil in Hget. discriminate Hget.
      * intros month monthPosts.
        destruct (String.eqb_spec (Archive.monthOf format post) month)
          as [<- | Hne].
        -- rewrite Map_get_set_eq. intros [= <-] Hnil.
           now apply app_eq_nil in Hnil as [_ [=]].
        -- rewrite Map_get_set_neq by congruence. apply Hm.
    + rewrite Map_get_set_neq by congruence. apply Hinner.
Qed.

(** X17.  The groups account for every post once and hold nothing
    empty: the month counts add up to the number of posts, a year is a
    key exactly when some post falls into it, and every year that is
    shown has a month and every month that is shown has a post. *)
Theorem groupedPosts_counts_every_post_once
    (posts : list (Archive.Post Date)) :
  Archive.shownPosts (Archive.groupedPosts format posts) = length posts
  /\ (forall year,
        Archive.Map_has year (Archive.groupedPosts format posts) = true
        <-> exists post,
              In post posts /\ Archive.yearOf format post = year)
  /\ (forall year yearGroup,
        In (year, yearGroup) (Archive.groupedPosts format posts) ->
        yearGroup <> []
        /\ forall month monthPosts,
             In (month, monthPosts) yearGroup -> monthPosts <> []).
Proof.
  split; [| split].
  - induction posts as [| post posts IH] using rev_ind; [reflexivity |].
    rewrite groupedPosts_snoc, addPost_shownPosts, IH, length_app.
    cbn. lia.
  - intros year. rewrite groupedPosts_has_year, existsb_exists.
    split; intros (post & Hin & Hy); exists post; (split; [exact Hin |]);
      now apply String.eqb_eq.
  - intros year yearGroup Hin.
    destruct (groupedPosts_keys posts) as [Hkeys Hinner].
    pose proof (Map_get_In _ _ _ _ Hkeys Hin) as Hget.
    destruct (Hinner _ _ Hget) as (Hnd & Hne & Hm).
    split; [exact Hne |].
    intros month monthPosts Hmin. apply (Hm month).
    now apply Map_get_In.
Qed.

End GroupingFacts.

(** * The service and the page on the repository *)

(** Deleting one post asks for a tree of three deletions. *)
Lemma tree_entries_witness :
  In (CreateTree "token" "owner" "blog"
        [deletion "public/images/post-a/img.png";
         deletion "src/content/blog/post-a.md";
         deletion "src/content/blog/post-a.mdx"]
        "commit-0" (Ok (mkTreeData "tree-1")))
     (snd (Store.transaction ["post-a"] Store.initial))
  /\ Forall (fun it => sha it = None /\ mode it = "100644"
                       /\ type it = "blob")
       [deletion "public/images/post-a/img.png";
        deletion "src/content/blog/post-a.md";
        deletion "src/content/blog/post-a.mdx"].
Proof.
  pose (out := Store.transaction ["post-a"] Store.initial).
  assert (Hin : In (CreateTree "token" "owner" "blog"
                      [deletion "public/images/post-a/img.png";
                       deletion "src/content/blog/post-a.md";
                       deletion "src/content/blog/post-a.mdx"]
                      "commit-0" (Ok (mkTreeData "tree-1"))) (snd out))
    by (cbn; tauto).
  split; [exact Hin |].
  exact (tree_entries_only_delete Store.t Store.config Store.client
           (Some ["post-a"]) Store.initial (snd (fst out)) (fst (fst out))
           (snd out) eq_refl _ _ _ _ _ _ Hin).
Defined.

(** On the dangling branch the first listing fails and the second post is
    never listed. *)
Lemma listing_failure_witness :
  In (ListRepoFilesRecursive "token" "owner" "blog" "public/images/post-a"
        "main" (Err (Error "commit not found")))
     (snd (Store.transaction ["post-a"; "post-b"] dangling))
  /\ fst (fst (Store.transaction ["post-a"; "post-b"] dangling))
     = Err (Error "commit not found")
  /\ (forall ev,
        In ev (snd (Store.transaction ["post-a"; "post-b"] dangling)) ->
        is_write ev = false)
  /\ length (filter is_listing
               (snd (Store.transaction ["post-a"; "post-b"] dangling)))
     = 1.
Proof.
  pose (out := Store.transaction ["post-a"; "post-b"] dangling).
  assert (Hin : In (ListRepoFilesRecursive "token" "owner" "blog"
                      "public/images/post-a" "main"
                      (Err (Error "commit not found"))) (snd out))
    by (cbn; tauto).
  destruct (listing_failure_writes_nothing Store.t Store.config
              Store.client ["post-a"; "post-b"] dangling
              (snd (fst out)) (fst (fst out)) (snd out) eq_refl
              _ _ _ _ _ _ Hin)
    as (Hr & Hno & _).
  split; [exact Hin |]. split; [exact Hr |]. split; [exact Hno |].
  reflexivity.
Defined.

(** The reference update of a run is given the commit the run created. *)
Lemma chained_objects_witness :
  In (UpdateRef "token" "owner" "blog" "heads/main" "commit-1" (Ok tt))
     (snd (Store.transaction ["post-a"] Store.initial))
  /\ exists msg tree ps cd rd,
       In (CreateCommit "token" "owner" "blog" msg tree ps (Ok cd))
          (snd (Store.transaction ["post-a"] Store.initial))
       /\ "commit-1" = commit_sha cd
       /\ In (GetRef "token" "owner" "blog" "heads/main" (Ok rd))
             (snd (Store.transaction ["post-a"] Store.initial)).
Proof.
  pose (out := Store.transaction ["post-a"] Store.initial).
  assert (Hin : In (UpdateRef "token" "owner" "blog" "heads/main"
                      "commit-1" (Ok tt)) (snd out))
    by (cbn; tauto).
  split; [exact Hin |].
  exact (proj2 (created_objects_are_chained Store.t Store.config
                  Store.client (Some ["post-a"]) Store.initial
                  (snd (fst out)) (fst (fst out)) (snd out) eq_refl)
           _ _ _ _ _ _ Hin).
Defined.

(** One credential request in a run over two posts. *)
Lemma one_credential_witness :
  ["post-a"; "post-b"] <> []
  /\ length (filter is_getAuthToken
               (snd (Store.transaction ["post-a"; "post-b"]
                       Store.initial)))
     = 1
  /\ forall ev,
       In ev (snd (Store.transaction ["post-a"; "post-b"] Store.initial)) ->
       is_storage ev = true ->
       exists token,
         In (GetAuthToken (Ok token))
            (snd (Store.transaction ["post-a"; "post-b"] Store.initial))
         /\ target_of ev = Some (token, "owner", "blog").
Proof.
  assert (Hne : ["post-a"; "post-b"] <> []) by discriminate.
  split; [exact Hne |].
  pose (out := Store.transaction ["post-a"; "post-b"] Store.initial).
  exact (one_credential_for_every_call Store.t Store.config Store.client
           ["post-a"; "post-b"] Store.initial (snd (fst out))
           (fst (fst out)) (snd out) Hne eq_refl).
Defined.

(** Two posts: seven calls. *)
Lemma no_repeat_witness :
  fst (fst (Store.transaction ["post-a"; "post-b"] Store.initial)) = Ok tt
  /\ length (filter is_network
               (snd (Store.transaction ["post-a"; "post-b"]
                       Store.initial)))
     = 7.
Proof.
  pose (out := Store.transaction ["post-a"; "post-b"] Store.initial).
  destruct (no_call_is_repeated Store.t Store.config Store.client
              ["post-a"; "post-b"] Store.initial (snd (fst out))
              (fst (fst out)) (snd out) eq_refl)
    as (_ & _ & _ & _ & Hall).
  split; [reflexivity | exact (Hall eq_refl)].
Defined.

(** Ticking a second post. *)
Lemma toggleSelect_witness :
  NoDup ["post-a"]
  /\ Archive.selectedSlugs
       (Archive.toggleSelect "post-b" (Archive.editing true ["post-a"]))
     = ["post-a"; "post-b"]
  /\ NoDup (Archive.selectedSlugs
              (Archive.toggleSelect "post-b"
                 (Archive.editing true ["post-a"]))).
Proof.
  assert (Hnd : NoDup ["post-a"]) by (repeat constructor; intros []).
  split; [exact Hnd |]. split; [reflexivity |].
  exact (proj1 (toggleSelect_flips_one "post-b"
                  (Archive.editing true ["post-a"]) Hnd)).
Defined.

(** Unticking and ticking the first of two posts moves it to the end. *)
Lemma toggleSelect_twice_witness :
  NoDup ["post-a"; "post-b"]
  /\ Archive.selectedSlugs
       (Archive.toggleSelect "post-a"
          (Archive.toggleSelect "post-a"
             (Archive.editing true ["post-a"; "post-b"])))
     = ["post-b"; "post-a"]
  /\ Permutation
       (Archive.selectedSlugs
          (Archive.toggleSelect "post-a"
             (Archive.toggleSelect "post-a"
                (Archive.editing true ["post-a"; "post-b"]))))
       ["post-a"; "post-b"].
Proof.
  assert (Hnd : NoDup ["post-a"; "post-b"]).
  { repeat constructor; cbn; intuition discriminate. }
  split; [exact Hnd |]. split; [reflexivity |].
  exact (proj1 (toggleSelect_twice "post-a"
                  (Archive.editing true ["post-a"; "post-b"]) Hnd)).
Defined.

(** Entering edit mode, clicking two cards, leaving edit mode. *)
Lemma selecting_witness :
  Archive.Selecting
    (Archive.toggleEditMode
       (Archive.onCardClick "post-b"
          (Archive.onCardClick "post-a"
             (Archive.toggleEditMode (Archive.initialView true true)))))
  /\ Archive.selectedSlugs
       (Archive.onCardClick "post-b"
          (Archive.onCardClick "post-a"
             (Archive.toggleEditMode (Archive.initialView true true))))
     = ["post-a"; "post-b"]
  /\ Archive.selectedSlugs
       (Archive.toggleEditMode
          (Archive.onCardClick "post-b"
             (Archive.onCardClick "post-a"
                (Archive.toggleEditMode (Archive.initialView true true)))))
     = [].
Proof.
  assert (Hsel : Archive.Selecting
                   (Archive.toggleEditMode
                      (Archive.onCardClick "post-b"
                         (Archive.onCardClick "post-a"
                            (Archive.toggleEditMode
                               (Archive.initialView true true)))))).
  { repeat constructor. }
  split; [exact Hsel |]. split; [reflexivity |].
  destruct (selecting_keeps_selection_in_edit_mode _ Hsel)
    as (_ & Hout & _).
  exact (Hout eq_refl).
Defined.

(** Deleting the selected post from the page. *)
Lemma executeDelete_witness :
  fst (fst (fst (Archive.executeDelete (File := string) Store.config
                   Store.client
                   (Archive.editing true ["post-a"])
                   (Archive.editing true ["post-a"]) Store.initial)))
  = Ok tt
  /\ Archive.deleting
       (snd (fst (fst (Archive.executeDelete (File := string) Store.config
                         Store.client
                         (Archive.editing true ["post-a"])
                         (Archive.editing true ["post-a"])
                         Store.initial))))
     = false.
Proof.
  pose (out := Archive.executeDelete (File := string) Store.config
                 Store.client (Archive.editing true ["post-a"])
                 (Archive.editing true ["post-a"]) Store.initial).
  destruct (executeDelete_settles Store.t string Store.config Store.client
              (Archive.editing true ["post-a"])
              (Archive.editing true ["post-a"])
              (snd (fst (fst out))) Store.initial (snd (fst out))
              (fst (fst (fst out))) (snd out) eq_refl)
    as (Hr & Hdel & _).
  split; [exact Hr | exact Hdel].
Defined.

(** The repository that refuses writes: the page keeps the selection and
    shows the error of the storage. *)
Lemma executeDelete_failure_witness :
  Store.transaction ["post-a"] Store.read_only
  = (Err (Error "permission denied"),
     snd (fst (Store.transaction ["post-a"] Store.read_only)),
     snd (Store.transaction ["post-a"] Store.read_only))
  /\ Archive.selectedSlugs
       (snd (fst (fst (Archive.executeDelete (File := string) Store.config
                         Store.client
                         (Archive.editing true ["post-a"])
                         (Archive.editing true ["post-a"])
                         Store.read_only))))
     = ["post-a"]
  /\ filter Archive.is_error_toast
       (snd (Archive.executeDelete (File := string) Store.config
               Store.client
               (Archive.editing true ["post-a"])
               (Archive.editing true ["post-a"]) Store.read_only))
     = [Archive.ToastError "permission denied"].
Proof.
  pose (out := Archive.executeDelete (File := string) Store.config
                 Store.client (Archive.editing true ["post-a"])
                 (Archive.editing true ["post-a"]) Store.read_only).
  assert (Hs : Store.transaction ["post-a"] Store.read_only
               = (Err (Error "permission denied"),
                  snd (fst (Store.transaction ["post-a"] Store.read_only)),
                  snd (Store.transaction ["post-a"] Store.read_only)))
    by reflexivity.
  destruct (executeDelete_resets_only_on_success Store.t string
              Store.config Store.client
              (Archive.editing true ["post-a"])
              (Archive.editing true ["post-a"])
              (snd (fst (fst out))) Store.read_only (snd (fst out))
              _ (fst (fst (fst out))) _ (snd out) _ Hs eq_refl)
    as (_ & _ & Hsel & Htoast & _).
  split; [exact Hs |]. split; [exact Hsel | exact Htoast].
Defined.

(** Nothing selected. *)
Lemma executeDelete_nothing_selected_witness :
  Archive.selectedSlugs (Archive.editing true []) = []
  /\ snd (Archive.executeDelete (File := string) Store.config Store.client
            (Archive.editing true []) (Archive.editing true [])
            Store.initial)
     = [Archive.SetDeleting true;
        Archive.ConsoleError (Error "需要 slugs");
        Archive.ToastError "需要 slugs";
        Archive.SetDeleting false].
Proof.
  split; [reflexivity |].
  rewrite (executeDelete_with_nothing_selected Store.t string Store.config
             Store.client (Archive.editing true [])
             (Archive.editing true []) Store.initial eq_refl).
  reflexivity.
Defined.

(** A signed-in user confirms the deletion of one post. *)
Lemma handleBatchDelete_witness :
  existsb Archive.is_client_call
    (snd (Archive.handleBatchDelete Store.config Store.client
            Archive.browser (Archive.editing true ["post-a"])
            (Archive.editing true ["post-a"]) Store.initial))
  = true
  /\ exists rest,
       snd (Archive.handleBatchDelete Store.config Store.client
              Archive.browser (Archive.editing true ["post-a"])
              (Archive.editing true ["post-a"]) Store.initial)
       = Archive.Confirm "确定要删除选中的 1 篇文章吗？此操作不可恢复。" true
           :: rest.
Proof.
  pose (out := Archive.handleBatchDelete Store.config Store.client
                 Archive.browser (Archive.editing true ["post-a"])
                 (Archive.editing true ["post-a"]) Store.initial).
  destruct (handleBatchDelete_asks_first Store.t string Store.config
              Store.client Archive.browser
              (Archive.editing true ["post-a"])
              (Archive.editing true ["post-a"])
              (snd (fst (fst out))) Store.initial (snd (fst out))
              (fst (fst (fst out))) (snd out) eq_refl)
    as (_ & _ & Hfirst & _).
  split; [reflexivity |]. exact (Hfirst eq_refl).
Defined.

(** A user who is not signed in is asked for the key. *)
Lemma handleBatchDelete_unauthenticated_witness :
  Archive.isAuth (Archive.editing false ["post-a"]) = false
  /\ Archive.handleBatchDelete Store.config Store.client Archive.browser
       (Archive.editing false ["post-a"])
       (Archive.editing false ["post-a"]) Store.signed_out
     = (Ok tt, Archive.editing false ["post-a"], Store.signed_out,
        [Archive.Confirm "确定要删除选中的 1 篇文章吗？此操作不可恢复。" true;
         Archive.Call (ToastInfo "请导入私钥以继续删除操作");
         Archive.KeyInputClick])
  /\ existsb Archive.is_client_call
       (snd (Archive.handleBatchDelete Store.config Store.client
               Archive.browser (Archive.editing false ["post-a"])
               (Archive.editing false ["post-a"]) Store.signed_out))
     = false.
Proof.
  pose (out := Archive.handleBatchDelete Store.config Store.client
                 Archive.browser (Archive.editing false ["post-a"])
                 (Archive.editing false ["post-a"]) Store.signed_out).
  destruct (handleBatchDelete_without_consent_or_key Store.t string
              Store.config Store.client Archive.browser
              (Archive.editing false ["post-a"])
              (Archive.editing false ["post-a"])
              (snd (fst (fst out))) Store.signed_out (snd (fst out))
              (fst (fst (fst out))) (snd out) eq_refl
              (or_intror eq_refl))
    as (_ & Hnone & _).
  split; [reflexivity |]. split; [reflexivity | exact Hnone].
Defined.

(** A key file that cannot be read. *)
Lemma key_import_failure_witness :
  (forall pem,
     ~ In (Archive.SetPrivateKey pem (Ok tt))
          (snd (Archive.handlePrivateKeySelection Store.config Store.client
                  Archive.unreadable (Archive.editing false ["post-a"])
                  "key.pem" (Archive.editing false ["post-a"])
                  Store.signed_out)))
  /\ snd (fst (fst (Archive.handlePrivateKeySelection Store.config
                      Store.client Archive.unreadable
                      (Archive.editing false ["post-a"]) "key.pem"
                      (Archive.editing false ["post-a"])
                      Store.signed_out)))
     = Archive.editing false ["post-a"]
  /\ existsb Archive.is_call
       (snd (Archive.handlePrivateKeySelection Store.config Store.client
               Archive.unreadable (Archive.editing false ["post-a"])
               "key.pem" (Archive.editing false ["post-a"])
               Store.signed_out))
     = false.
Proof.
  pose (out := Archive.handlePrivateKeySelection Store.config Store.client
                 Archive.unreadable (Archive.editing false ["post-a"])
                 "key.pem" (Archive.editing false ["post-a"])
                 Store.signed_out).
  assert (Hno : forall pem,
            ~ In (Archive.SetPrivateKey pem (Ok tt)) (snd out)).
  { intros pem Hin. cbn in Hin.
    decompose [or] Hin; try contradiction; discriminate. }
  destruct (key_import_failure_deletes_nothing Store.t string Store.config
              Store.client Archive.unreadable
              (Archive.editing false ["post-a"])
              (Archive.editing false ["post-a"])
              (snd (fst (fst out))) "key.pem" Store.signed_out
              (snd (fst out)) (fst (fst (fst out))) (snd out) eq_refl)
    as (_ & Hfail).
  destruct (Hfail Hno) as (Hv & Hcalls & _).
  split; [exact Hno |]. split; [exact Hv | exact Hcalls].
Defined.

(** Importing the key signs the user in, and the deletion goes through. *)
Lemma key_import_witness :
  existsb Archive.is_call
    (snd (Archive.handlePrivateKeySelection Store.config Store.client
            Archive.browser (Archive.editing false ["post-a"])
            "token" (Archive.editing false ["post-a"]) Store.signed_out))
  = true
  /\ exists w2 rest,
       Archive.call_setPrivateKey Archive.browser "token" Store.signed_out
       = (Ok tt, w2)
       /\ Store.credential w2 = Some "token"
       /\ snd (Archive.handlePrivateKeySelection Store.config Store.client
                 Archive.browser (Archive.editing false ["post-a"])
                 "token" (Archive.editing false ["post-a"])
                 Store.signed_out)
          = Archive.ReadFileAsText "token" (Ok "token")
              :: Archive.SetPrivateKey "token" (Ok tt)
              :: Archive.Call (ToastSuccess "密钥导入成功，正在继续删除...")
              :: rest.
Proof.
  pose (out := Archive.handlePrivateKeySelection Store.config Store.client
                 Archive.browser (Archive.editing false ["post-a"])
                 "token" (Archive.editing false ["post-a"])
                 Store.signed_out).
  assert (Hcall : existsb Archive.is_call (snd out) = true) by reflexivity.
  destruct (key_is_stored_before_deletion Store.t string Store.config
              Store.client Archive.browser
              (Archive.editing false ["post-a"])
              (Archive.editing false ["post-a"])
              (snd (fst (fst out))) "token" Store.signed_out
              (snd (fst out)) (fst (fst (fst out))) (snd out) eq_refl
              Hcall)
    as (pem & w1 & w2 & rest & Hread & Hset & _ & Ht).
  split; [exact Hcall |].
  injection Hread as <- <-.
  exists w2, rest. split; [exact Hset |].
  split; [| exact Ht].
  cbn in Hset. injection Hset as <-. reflexivity.
Defined.
